(** * TimerKeeper.hpp: stopwatch, timed events, job events, priority events

    A shallow embedding of [src/TimerKeeper.hpp].

    - [Clock::time_point] is a signed 64-bit count of nanosecond ticks
      (the source multiplies [count()] by [pow(10, -9)] to get seconds);
    - [double] is the kernel's binary64 [float], so every arithmetic
      expression of the source is evaluated bit for bit;
    - [Clock::now()] reads an explicit clock kept in the [World]: the n-th
      read returns [clock n];
    - a [std::function<void()>] is a possibly empty closure over the user's
      state which may return or throw;
    - a member function is a state transformer over [this] and the world,
      whose outcome is a return, a thrown exception, or [std::terminate]
      (what [noexcept] turns an escaping exception into). *)

From Stdlib Require Import ZArith Bool List Lia Floats Uint63.
Import ListNotations.
Local Open Scope Z_scope.

(** ** std::chrono *)

Module Chrono.

(** [Clock::rep]: a signed 64-bit integer. *)
Definition rep := Z.

Definition int64_min : Z := -9223372036854775808.
Definition int64_max : Z := 9223372036854775807.

Definition in_int64 (z : Z) : Prop := int64_min <= z <= int64_max.

(** Two's complement wrap-around of a 64-bit signed result. *)
Definition wrap64 (z : Z) : rep := (z + 2 ^ 63) mod 2 ^ 64 - 2 ^ 63.

(** A time point is its tick count since the clock's epoch. *)
Definition time_point := rep.
Definition duration := rep.

(** [time_point()] is the epoch. *)
Definition epoch : time_point := 0.

(** [a - b] on time points. *)
Definition minus (a b : time_point) : duration := wrap64 (a - b).

(** [d.count()]. *)
Definition count (d : duration) : rep := d.

(** The conversion of an [int64] to [double] (round to nearest even), as
    the usual arithmetic conversions do in [count() * pow(10, -9)]. *)
Definition to_double (n : rep) : float :=
  if n <? 0 then
    if n =? int64_min then (- 0x1p63)%float
    else (- PrimFloat.of_uint63 (Uint63.of_Z (- n)))%float
  else PrimFloat.of_uint63 (Uint63.of_Z n).

Arguments to_double n%_Z.

(** [pow(10, -9)], as the C library computes it: the double nearest to one
    billionth.  The proofs use only that it is finite and positive. *)
Definition pow_10_m9 : float := 0x1.12e0be826d695p-30%float.

End Chrono.

Import Chrono.

(** ** Data model *)

(** [class Timer]: two time points. *)
Record Timer : Type := mkTimer {
  startTime : time_point;
  endTime : time_point
}.

Arguments mkTimer (startTime endTime)%_Z.

(** [class TimedEvent : private Timer]. *)
Record TimedEvent : Type := mkTimedEvent {
  timer : Timer;
  handled : bool;
  repeated : bool;
  waitTime : float
}.

(** What can be thrown: calling an empty [std::function] throws
    [std::bad_function_call]; a callback throws what it likes. *)
Inductive exn : Type :=
  | bad_function_call
  | user_exception (code : Z).

(** The observable events of a run, in order: each read of the clock, and
    each invocation of a job together with the state of the event it
    belongs to at the moment of the call. *)
Inductive Obs : Type :=
  | ClockRead (t : time_point)
  | JobInvoked (self : TimedEvent).

Section UserState.

Variable U : Type.

(** The body of a callback: it sees the event it is attached to, updates
    the state it captured, and returns ([None]) or throws ([Some e]). *)
Definition Job : Type := TimedEvent -> U -> option exn * U.

(** [std::function<void()>]: empty or holding a target. *)
Definition Callback : Type := option Job.

(** [class JobEvent : public TimedEvent]. *)
Record JobEvent : Type := mkJobEvent {
  timed : TimedEvent;
  job : Callback
}.

(** [class PriorityEvent : public JobEvent].  The [int priority] is kept
    as the integer it stands for: it is only stored and compared. *)
Record PriorityEvent : Type := mkPriorityEvent {
  jobEvent : JobEvent;
  priority : Z
}.

(** The world outside the objects. *)
Record World : Type := mkWorld {
  clock : nat -> time_point;
  reads : nat;
  user : U;
  log : list Obs
}.

End UserState.

Arguments Job U : clear implicits.
Arguments Callback U : clear implicits.
Arguments mkJobEvent {U} _ _.
Arguments timed {U} _.
Arguments job {U} _.
Arguments mkPriorityEvent {U} _ _.
Arguments jobEvent {U} _.
Arguments priority {U} _.
Arguments mkWorld {U} _ _ _ _.
Arguments clock {U} _ _.
Arguments reads {U} _.
Arguments user {U} _.
Arguments log {U} _.

(** ** Member functions as state transformers *)

Inductive Outcome (S A : Type) : Type :=
  | Returns (a : A) (s : S)
  | Throws (e : exn) (s : S)
  | Terminates (s : S).

Arguments Returns {S A} _ _.
Arguments Throws {S A} _ _.
Arguments Terminates {S A} _.

Definition Prog (S A : Type) : Type := S -> Outcome S A.

Definition ret {S A} (a : A) : Prog S A := fun s => Returns a s.

Definition bind {S A B} (m : Prog S A) (k : A -> Prog S B) : Prog S B :=
  fun s =>
    match m s with
    | Returns a s' => k a s'
    | Throws e s' => Throws e s'
    | Terminates s' => Terminates s'
    end.

Declare Scope prog_scope.
Delimit Scope prog_scope with prog.
Notation "x <- m ;; k" := (bind m (fun x => k))
  (at level 61, m at next level, right associativity) : prog_scope.
Notation "m ;;; k" := (bind m (fun _ => k))
  (at level 61, right associativity) : prog_scope.

(** [noexcept]: an exception that would leave the function calls
    [std::terminate] instead. *)
Definition noexcept {S A} (m : Prog S A) : Prog S A :=
  fun s =>
    match m s with
    | Throws _ s' => Terminates s'
    | o => o
    end.

(** A member function of a base class run on the base sub-object. *)
Definition on_base {D B W A} (get : D -> B) (set : D -> B -> D)
  (m : Prog (B * W) A) : Prog (D * W) A :=
  fun '(d, w) =>
    match m (get d, w) with
    | Returns a (b, w') => Returns a (set d b, w')
    | Throws e (b, w') => Throws e (set d b, w')
    | Terminates (b, w') => Terminates (set d b, w')
    end.

Definition this {O W} : Prog (O * W) O := fun '(o, w) => Returns o (o, w).

Definition assign {O W} (o' : O) : Prog (O * W) unit :=
  fun '(_, w) => Returns tt (o', w).

(** The reading the clock gives next, and the world once it was read. *)
Definition next_reading {U} (w : World U) : time_point := clock w (reads w).

Definition advance {U} (w : World U) : World U :=
  mkWorld (clock w) (S (reads w)) (user w)
    (log w ++ [ClockRead (next_reading w)]).

(** [Clock::now()]. *)
Definition Clock_now {O U} : Prog (O * World U) time_point :=
  fun '(o, w) => Returns (next_reading w) (o, advance w).

(** What a run returned, if it did. *)
Definition result {S A} (o : Outcome S A) : option A :=
  match o with Returns a _ => Some a | _ => None end.

Definition final {S A} (o : Outcome S A) : S :=
  match o with Returns _ s | Throws _ s | Terminates s => s end.

(** ** class Timer *)

Module Timer.
Section Methods.
Context {U : Type}.
Local Open Scope prog_scope.

Definition M := Prog (Timer * World U).

(** [Timer()]: both time points are default-constructed. *)
Definition new : Timer := mkTimer epoch epoch.

(** The expression of [getTimePassed]. *)
Definition seconds_between (a b : time_point) : float :=
  (to_double (count (minus b a)) * pow_10_m9)%float.

Definition getTimePassed : M float :=
  noexcept (
    t <- this ;;
    ret (seconds_between (startTime t) (endTime t))).

Definition start : M unit :=
  noexcept (
    n <- Clock_now ;;
    t <- this ;;
    assign (mkTimer n (endTime t))).

Definition stop : M unit :=
  noexcept (
    n <- Clock_now ;;
    t <- this ;;
    assign (mkTimer (startTime t) n)).

End Methods.
End Timer.

Arguments Timer.seconds_between (a b)%_Z.

(** ** class TimedEvent *)

Module TimedEvent.
Section Methods.
Context {U : Type}.
Local Open Scope prog_scope.

Definition M := Prog (TimedEvent * World U).

Definition set_timer (e : TimedEvent) (t : Timer) : TimedEvent :=
  mkTimedEvent t (handled e) (repeated e) (waitTime e).

Definition set_handled (e : TimedEvent) (h : bool) : TimedEvent :=
  mkTimedEvent (timer e) h (repeated e) (waitTime e).

(** The inherited [Timer::start()]. *)
Definition start : M unit := on_base timer set_timer Timer.start.

(** The event once [start()] has read [n] from the clock. *)
Definition restarted (e : TimedEvent) (n : time_point) : TimedEvent :=
  set_timer e (mkTimer n (endTime (timer e))).

(** The expression of [getLateness], for a clock reading [n]. *)
Definition lateness_at (n : time_point) (e : TimedEvent) : float :=
  (to_double (count (minus n (startTime (timer e)))) * pow_10_m9
   - waitTime e)%float.

Definition getLateness : M float :=
  noexcept (
    n <- Clock_now ;;
    e <- this ;;
    ret (lateness_at n e)).

Definition isDue : M bool :=
  noexcept (
    l <- getLateness ;;
    ret (0 <=? l)%float).

Definition isHandled : M bool :=
  noexcept (
    e <- this ;;
    ret (handled e)).

(** [!handled && isDue()]: [isDue()] is evaluated only when [handled]
    is false. *)
Definition shouldHandle : M bool :=
  noexcept (
    e <- this ;;
    if negb (handled e) then isDue else ret false).

Definition handle : M bool :=
  noexcept (
    b <- shouldHandle ;;
    if b then
      e <- this ;;
      (if repeated e then start
       else assign (set_handled e true)) ;;;
      ret true
    else ret false).

(** [TimedEvent(rep, wt)]: the members are initialised, then the body
    calls [start()]. *)
Definition new (rep : bool) (wt : float) : Prog (unit * World U) TimedEvent :=
  fun '(_, w) =>
    match start (mkTimedEvent Timer.new false rep wt, w) with
    | Returns _ (e, w') => Returns e (tt, w')
    | Throws x (_, w') => Throws x (tt, w')
    | Terminates (_, w') => Terminates (tt, w')
    end.

End Methods.
End TimedEvent.

Arguments TimedEvent.lateness_at n%_Z e.

(** ** class JobEvent *)

(** [cb()]: an empty [std::function] throws [std::bad_function_call];
    otherwise the target runs once, which the log records together with
    the event state [self] it could observe. *)
Definition invoke {O U} (cb : Callback U) (self : TimedEvent)
  : Prog (O * World U) unit :=
  fun '(o, w) =>
    match cb with
    | None => Throws bad_function_call (o, w)
    | Some f =>
        let (x, u') := f self (user w) in
        let w' :=
          mkWorld (clock w) (reads w) u' (log w ++ [JobInvoked self]) in
        match x with
        | None => Returns tt (o, w')
        | Some e => Throws e (o, w')
        end
    end.

Module JobEvent.
Section Methods.
Context {U : Type}.
Local Open Scope prog_scope.

Definition M := Prog (JobEvent U * World U).

Definition set_timed (j : JobEvent U) (e : TimedEvent) : JobEvent U :=
  mkJobEvent e (job j).

(** A member function inherited from [TimedEvent]. *)
Definition inherited {A} (m : TimedEvent.M A) : M A :=
  on_base timed set_timed m.

Definition getJob : M (Callback U) :=
  j <- this ;;
  ret (job j).

Definition setJob (cb : Callback U) : M unit :=
  j <- this ;;
  assign (mkJobEvent (timed j) cb).

Definition handle : M bool :=
  noexcept (
    result <- inherited TimedEvent.handle ;;
    (if result : bool then
       j <- this ;;
       invoke (job j) (timed j)
     else ret tt) ;;;
    ret result).

(** [JobEvent(cb, rep, wt) : TimedEvent(rep, wt), job(cb)]. *)
Definition new (cb : Callback U) (rep : bool) (wt : float)
  : Prog (unit * World U) (JobEvent U) :=
  e <- TimedEvent.new rep wt ;;
  ret (mkJobEvent e cb).

End Methods.
End JobEvent.

(** ** class PriorityEvent *)

Module PriorityEvent.
Section Methods.
Context {U : Type}.
Local Open Scope prog_scope.

Definition M := Prog (PriorityEvent U * World U).

Definition set_jobEvent (p : PriorityEvent U) (j : JobEvent U)
  : PriorityEvent U :=
  mkPriorityEvent j (priority p).

(** A member function inherited from [JobEvent]; [handle] is not
    overridden here, so [JobEvent::handle] is the final overrider. *)
Definition inherited {A} (m : JobEvent.M A) : M A :=
  on_base jobEvent set_jobEvent m.

Definition getPriority : M Z :=
  noexcept (
    p <- this ;;
    ret (priority p)).

Definition setPriority (v : Z) : M unit :=
  noexcept (
    p <- this ;;
    assign (mkPriorityEvent (jobEvent p) v)).

(** [priority > event.getPriority()]; [event] is a const reference to
    another object, read without changing it. *)
Definition hasPriority (event : PriorityEvent U) : M bool :=
  noexcept (
    p <- this ;;
    fun s =>
      match getPriority (event, snd s) with
      | Returns q _ => Returns (priority p >? q) s
      | Throws e _ => Throws e s
      | Terminates _ => Terminates s
      end).

(** [operator>]. *)
Definition gt (event : PriorityEvent U) : M bool :=
  noexcept (hasPriority event).

(** [PriorityEvent(cb, p, rep, wt) : JobEvent(cb, rep, wt), priority(p)]. *)
Definition new (cb : Callback U) (p : Z) (rep : bool) (wt : float)
  : Prog (unit * World U) (PriorityEvent U) :=
  j <- JobEvent.new cb rep wt ;;
  ret (mkPriorityEvent j p).

End Methods.
End PriorityEvent.

(** ** Objects and virtual dispatch *)

(** An object of the hierarchy, by its most derived class.  A reference of
    static type [TimedEvent&] can be bound to any of them. *)
Inductive Object (U : Type) : Type :=
  | TimedEventObj (e : TimedEvent)
  | JobEventObj (j : JobEvent U)
  | PriorityEventObj (p : PriorityEvent U).

Arguments TimedEventObj {U} _.
Arguments JobEventObj {U} _.
Arguments PriorityEventObj {U} _.

Section Dispatch.
Context {U : Type}.
Local Open Scope prog_scope.

(** The [TimedEvent] sub-object. *)
Definition base_of (o : Object U) : TimedEvent :=
  match o with
  | TimedEventObj e => e
  | JobEventObj j => timed j
  | PriorityEventObj p => timed (jobEvent p)
  end.

Definition set_base (o : Object U) (e : TimedEvent) : Object U :=
  match o with
  | TimedEventObj _ => TimedEventObj e
  | JobEventObj j => JobEventObj (JobEvent.set_timed j e)
  | PriorityEventObj p =>
      PriorityEventObj
        (PriorityEvent.set_jobEvent p (JobEvent.set_timed (jobEvent p) e))
  end.

(** The callback an object holds, if its class has one. *)
Definition job_of (o : Object U) : option (Callback U) :=
  match o with
  | TimedEventObj _ => None
  | JobEventObj j => Some (job j)
  | PriorityEventObj p => Some (job (jobEvent p))
  end.

(** To run a member function of class [C] on an object whose most
    derived class is [C]. *)
Definition as_class {C A} (wrap : C -> Object U) (c : C)
  (m : Prog (C * World U) A) : World U -> Outcome (Object U * World U) A :=
  fun w =>
    match m (c, w) with
    | Returns a (c', w') => Returns a (wrap c', w')
    | Throws e (c', w') => Throws e (wrap c', w')
    | Terminates (c', w') => Terminates (wrap c', w')
    end.

(** [r.handle()] through a reference [r] of any static type of the
    hierarchy: [handle] is virtual, so the final overrider of the
    object's most derived class runs. *)
Definition virtual_handle : Prog (Object U * World U) bool :=
  fun '(o, w) =>
    match o with
    | TimedEventObj e => as_class TimedEventObj e TimedEvent.handle w
    | JobEventObj j => as_class JobEventObj j JobEvent.handle w
    | PriorityEventObj p =>
        as_class PriorityEventObj p
          (PriorityEvent.inherited JobEvent.handle) w
    end.

(** [r.TimedEvent::handle()]: the qualified call, which is not
    dispatched. *)
Definition qualified_base_handle : Prog (Object U * World U) bool :=
  on_base base_of set_base TimedEvent.handle.

(** The classes, and which derives from which. *)
Inductive Class : Type := TimedEventClass | JobEventClass | PriorityEventClass.

Definition class_of (o : Object U) : Class :=
  match o with
  | TimedEventObj _ => TimedEventClass
  | JobEventObj _ => JobEventClass
  | PriorityEventObj _ => PriorityEventClass
  end.

(** [derives d s]: [d] is [s] or a class derived from it, so that a
    reference of static type [s] can be bound to an object of class [d]. *)
Definition derives (d s : Class) : bool :=
  match s, d with
  | TimedEventClass, _ => true
  | JobEventClass, (JobEventClass | PriorityEventClass) => true
  | PriorityEventClass, PriorityEventClass => true
  | _, _ => false
  end.

(** How each class declares [handle]: [TimedEvent] as [inline virtual],
    [JobEvent] as [inline virtual ... override], [PriorityEvent] not at
    all. *)
Inductive Declared : Type := DeclVirtual | DeclVirtualOverride | NotDeclared.

Definition declares_handle (c : Class) : Declared :=
  match c with
  | TimedEventClass => DeclVirtual
  | JobEventClass => DeclVirtualOverride
  | PriorityEventClass => NotDeclared
  end.

Definition parent (c : Class) : option Class :=
  match c with
  | TimedEventClass => None
  | JobEventClass => Some TimedEventClass
  | PriorityEventClass => Some JobEventClass
  end.

(** The class whose [handle] name lookup finds from [c]: the nearest
    class, from [c] upwards, that declares it. *)
Definition lookup_handle (c : Class) : Class :=
  match declares_handle c with
  | NotDeclared =>
      match parent c with
      | Some p =>
          match declares_handle p with
          | NotDeclared =>
              match parent p with Some g => g | None => p end
          | _ => p
          end
      | None => c
      end
  | _ => c
  end.

(** [handle] is virtual in the class that lookup finds from [s]. *)
Definition handle_is_virtual (s : Class) : bool :=
  match declares_handle (lookup_handle s) with
  | NotDeclared => false
  | _ => true
  end.

(** The body of [C::handle] run on the [C] sub-object of an object (for
    [C] a class the object derives from). *)
Definition body_of_handle (c : Class) : Prog (Object U * World U) bool :=
  fun '(o, w) =>
    match c, o with
    | JobEventClass, JobEventObj j =>
        as_class JobEventObj j JobEvent.handle w
    | JobEventClass, PriorityEventObj p =>
        as_class PriorityEventObj p
          (PriorityEvent.inherited JobEvent.handle) w
    | _, _ => qualified_base_handle (o, w)
    end.

(** [r.handle()] for a reference [r] of static type [s]: a virtual member
    function runs the final overrider of the object's own class, any other
    the function lookup finds from [s]. *)
Definition handle_via (s : Class) : Prog (Object U * World U) bool :=
  fun '(o, w) =>
    if handle_is_virtual s
    then body_of_handle (lookup_handle (class_of o)) (o, w)
    else body_of_handle (lookup_handle s) (o, w).

End Dispatch.

(** ** Runs: a sequence of calls on one object *)

Inductive Call (U : Type) : Type :=
| call_handle
| call_getLateness
| call_isDue
| call_isHandled
| call_shouldHandle
| call_getJob
| call_setJob (cb : Callback U)
| call_getPriority
| call_setPriority (v : Z)
| call_hasPriority (other : PriorityEvent U)
| call_gt (other : PriorityEvent U).

Arguments call_handle {U}.
Arguments call_getLateness {U}.
Arguments call_isDue {U}.
Arguments call_isHandled {U}.
Arguments call_shouldHandle {U}.
Arguments call_getJob {U}.
Arguments call_setJob {U} _.
Arguments call_getPriority {U}.
Arguments call_setPriority {U} _.
Arguments call_hasPriority {U} _.
Arguments call_gt {U} _.

Inductive Value (U : Type) : Type :=
| VNone
| VUnit
| VBool (b : bool)
| VDouble (f : float)
| VInt (z : Z)
| VCallback (cb : Callback U).

Arguments VNone {U}.
Arguments VUnit {U}.
Arguments VBool {U} _.
Arguments VDouble {U} _.
Arguments VInt {U} _.
Arguments VCallback {U} _.

Section Runs.
Context {U : Type}.
Local Open Scope prog_scope.

(** A public member function of [TimedEvent], on any object. *)
Definition timed_member {A} (m : TimedEvent.M A) (inj : A -> Value U)
  : Prog (Object U * World U) (Value U) :=
  a <- on_base base_of set_base m ;;
  ret (inj a).

(** A member function of [JobEvent]; a [TimedEvent] has no such member
    and the call is no call at all. *)
Definition job_member {A} (m : JobEvent.M A) (inj : A -> Value U)
  : Prog (Object U * World U) (Value U) :=
  fun '(o, w) =>
    match o with
    | TimedEventObj _ => Returns VNone (o, w)
    | JobEventObj j => as_class JobEventObj j (a <- m ;; ret (inj a)) w
    | PriorityEventObj p =>
        as_class PriorityEventObj p
          (a <- PriorityEvent.inherited m ;; ret (inj a)) w
    end.

(** A member function of [PriorityEvent]. *)
Definition priority_member {A} (m : PriorityEvent.M A) (inj : A -> Value U)
  : Prog (Object U * World U) (Value U) :=
  fun '(o, w) =>
    match o with
    | PriorityEventObj p =>
        as_class PriorityEventObj p (a <- m ;; ret (inj a)) w
    | _ => Returns VNone (o, w)
    end.

Definition call (c : Call U) : Prog (Object U * World U) (Value U) :=
  match c with
  | call_handle => b <- virtual_handle ;; ret (VBool b)
  | call_getLateness => timed_member TimedEvent.getLateness VDouble
  | call_isDue => timed_member TimedEvent.isDue VBool
  | call_isHandled => timed_member TimedEvent.isHandled VBool
  | call_shouldHandle => timed_member TimedEvent.shouldHandle VBool
  | call_getJob => job_member JobEvent.getJob VCallback
  | call_setJob cb => job_member (JobEvent.setJob cb) (fun _ => VUnit)
  | call_getPriority => priority_member PriorityEvent.getPriority VInt
  | call_setPriority v =>
      priority_member (PriorityEvent.setPriority v) (fun _ => VUnit)
  | call_hasPriority other =>
      priority_member (PriorityEvent.hasPriority other) VBool
  | call_gt other => priority_member (PriorityEvent.gt other) VBool
  end.

(** The calls one after the other; the run ends early when a call does
    not return. *)
Fixpoint run (cs : list (Call U))
  : Prog (Object U * World U) (list (Value U)) :=
  match cs with
  | [] => ret []
  | c :: cs' =>
      v <- call c ;;
      vs <- run cs' ;;
      ret (v :: vs)
  end.

(** The jobs a log records, in order, each with the event state it saw. *)
Fixpoint jobs_of (l : list Obs) : list TimedEvent :=
  match l with
  | [] => []
  | JobInvoked e :: l' => e :: jobs_of l'
  | ClockRead _ :: l' => jobs_of l'
  end.

(** [a > b], evaluated in a world. *)
Definition above (w : World U) (a b : PriorityEvent U) : bool :=
  match PriorityEvent.gt b (a, w) with
  | Returns v _ => v
  | _ => false
  end.

End Runs.

(** ** Binary64 values by sign *)

(** The least exponent of binary64. *)
Definition emin64 : Z := emin.

(** A value of the given sign that is not zero: finite or infinite. *)
Definition nonzero_of_sign (s : bool) (x : spec_float) : bool :=
  match x with
  | S754_finite s' _ _ | S754_infinity s' => Bool.eqb s s'
  | _ => false
  end.

(** A value that is not negative: [+0], finite and positive, or
    [+infinity]. *)
Definition nonneg_sf (x : spec_float) : bool :=
  match x with
  | S754_zero false | S754_finite false _ _ | S754_infinity false => true
  | _ => false
  end.

(** ** Clocks *)

(** A clock that never goes back. *)
Definition monotonic (ck : nat -> time_point) : Prop :=
  forall i j, (i <= j)%nat -> ck i <= ck j.

(** A clock whose readings are at or after the epoch and fit the
    representation. *)
Definition representable (ck : nat -> time_point) : Prop :=
  forall i, 0 <= ck i <= int64_max.

(** ** Sample clocks, worlds and events *)

(** A clock that reads [t0] first and [step] more at each reading, up to
    the last time point there is. *)
Definition ticking (t0 step : Z) : nat -> time_point :=
  fun n => Z.min (t0 + step * Z.of_nat n) int64_max.

(** The first reading is 0.6 s, the next ones come every 0.1 s. *)
Definition sample_world : World Z :=
  mkWorld (ticking 600000000 100000000) 0 0 [].

(** The first reading is 0.3 s, the next ones come every 0.1 s. *)
Definition early_world : World Z :=
  mkWorld (ticking 300000000 100000000) 0 0 [].

Definition count_up : Job Z := fun _ n => (None, n + 1).

Definition throwing : Job Z := fun _ n => (Some (user_exception 7), n).

(** Events started at the epoch that wait half a second. *)
Definition one_shot_event : TimedEvent :=
  mkTimedEvent (mkTimer 0 0) false false 0.5%float.

Definition recurring_event : TimedEvent :=
  mkTimedEvent (mkTimer 0 0) false true 0.5%float.

(** The one-shot event once it fired. *)
Definition fired_event : TimedEvent :=
  mkTimedEvent (mkTimer 0 0) true false 0.5%float.

Definition counting_job_event : JobEvent Z :=
  mkJobEvent one_shot_event (Some count_up).

Definition throwing_job_event : JobEvent Z :=
  mkJobEvent one_shot_event (Some throwing).

Definition counting_priority_event (p : Z) : PriorityEvent Z :=
  mkPriorityEvent counting_job_event p.

(** ** Summaries of runs and further classes of binary64 values *)


(** [+infinity], or not a number at all. *)
Definition never_reached (x : spec_float) : bool :=
  match x with S754_nan | S754_infinity false => true | _ => false end.

(** A number of the given sign: a zero, a finite value or an infinity. *)
Definition has_sign (s : bool) (x : spec_float) : bool :=
  match x with
  | S754_zero s' | S754_finite s' _ _ | S754_infinity s' => Bool.eqb s s'
  | S754_nan => false
  end.

Section RunSummaries.
Context {U : Type}.

(** How many [handle()] calls of a run returned true. *)
Fixpoint fired (cs : list (Call U)) (vs : list (Value U)) : nat :=
  match cs, vs with
  | call_handle :: cs', VBool true :: vs' => S (fired cs' vs')
  | _ :: cs', _ :: vs' => fired cs' vs'
  | _, _ => 0%nat
  end.




End RunSummaries.

(** What no member function writes once the event is constructed. *)
Definition same_settings (e e' : TimedEvent) : Prop :=
  waitTime e' = waitTime e /\
  repeated e' = repeated e /\
  endTime (timer e') = endTime (timer e).

(** * Properties *)

(** ** What each member function of [Timer] and [TimedEvent] computes *)

Section Equations.
Context {U : Type}.
Implicit Types (w : World U) (e : TimedEvent) (t : Timer).

Lemma Timer_start_eq t w :
  Timer.start (t, w) =
  Returns tt (mkTimer (next_reading w) (endTime t), advance w).
Proof. reflexivity. Qed.

Lemma Timer_stop_eq t w :
  Timer.stop (t, w) =
  Returns tt (mkTimer (startTime t) (next_reading w), advance w).
Proof. reflexivity. Qed.

Lemma Timer_getTimePassed_eq t w :
  Timer.getTimePassed (t, w) =
  Returns (Timer.seconds_between (startTime t) (endTime t)) (t, w).
Proof. reflexivity. Qed.

Lemma start_eq e w :
  TimedEvent.start (e, w) =
  Returns tt (TimedEvent.restarted e (next_reading w), advance w).
Proof. reflexivity. Qed.

Lemma getLateness_eq e w :
  TimedEvent.getLateness (e, w) =
  Returns (TimedEvent.lateness_at (next_reading w) e) (e, advance w).
Proof. reflexivity. Qed.

Lemma isDue_eq e w :
  TimedEvent.isDue (e, w) =
  Returns (0 <=? TimedEvent.lateness_at (next_reading w) e)%float
    (e, advance w).
Proof. reflexivity. Qed.

Lemma isHandled_eq e w :
  TimedEvent.isHandled (e, w) = Returns (handled e) (e, w).
Proof. reflexivity. Qed.

Lemma shouldHandle_eq e w :
  TimedEvent.shouldHandle (e, w) =
  if handled e then Returns false (e, w)
  else Returns (0 <=? TimedEvent.lateness_at (next_reading w) e)%float
         (e, advance w).
Proof.
  unfold TimedEvent.shouldHandle, noexcept, bind, this.
  destruct (handled e); reflexivity.
Qed.

Lemma handle_eq e w :
  TimedEvent.handle (e, w) =
  if handled e then Returns false (e, w)
  else if (0 <=? TimedEvent.lateness_at (next_reading w) e)%float then
    if repeated e then
      Returns true
        (TimedEvent.restarted e (next_reading (advance w)),
         advance (advance w))
    else Returns true (TimedEvent.set_handled e true, advance w)
  else Returns false (e, advance w).
Proof.
  unfold TimedEvent.handle, noexcept at 1, bind at 1.
  rewrite shouldHandle_eq.
  destruct (handled e); [reflexivity|].
  destruct (0 <=? _)%float; [|reflexivity].
  unfold bind, this. destruct (repeated e); reflexivity.
Qed.

End Equations.

(** ** Binary64 facts *)

Section SpecFloatFacts.

(** [iter_pos] iterates as many times as its argument says. *)
Lemma iter_pos_nat {A} (f : A -> A) (n : positive) : forall x,
  iter_pos f n x = Nat.iter (Pos.to_nat n) f x.
Proof.
  induction n as [n IH|n IH|]; intros x; cbn [iter_pos].
  - rewrite !IH, Pos2Nat.inj_xI.
    replace (S (2 * Pos.to_nat n))%nat
      with (Pos.to_nat n + (Pos.to_nat n + 1))%nat by lia.
    rewrite !Nat.iter_add. reflexivity.
  - rewrite !IH, Pos2Nat.inj_xO.
    replace (2 * Pos.to_nat n)%nat
      with (Pos.to_nat n + Pos.to_nat n)%nat by lia.
    now rewrite Nat.iter_add.
  - reflexivity.
Qed.

Lemma digits2_pos_ge_2 p :
  2 <= Z.pos (digits2_pos p) ->
  exists q,
    (p = xO q \/ p = xI q) /\
    Z.pos (digits2_pos q) = Z.pos (digits2_pos p) - 1.
Proof.
  destruct p as [q|q|]; cbn [digits2_pos]; intros H.
  - exists q. split; [now right|lia].
  - exists q. split; [now left|lia].
  - lia.
Qed.

Lemma shr_1_pos p r s :
  2 <= Z.pos (digits2_pos p) ->
  exists q r' s',
    shr_1 (Build_shr_record (Z.pos p) r s) =
      Build_shr_record (Z.pos q) r' s' /\
    Z.pos (digits2_pos q) = Z.pos (digits2_pos p) - 1.
Proof.
  intros H. destruct (digits2_pos_ge_2 p H) as (q & [-> | ->] & Hq);
    exists q; simpl; eauto.
Qed.

Lemma shr_iter_pos (k : nat) : forall p r s,
  Z.of_nat k < Z.pos (digits2_pos p) ->
  exists q r' s',
    Nat.iter k shr_1 (Build_shr_record (Z.pos p) r s) =
      Build_shr_record (Z.pos q) r' s' /\
    Z.pos (digits2_pos q) = Z.pos (digits2_pos p) - Z.of_nat k.
Proof.
  induction k as [|k IH]; intros p r s Hk.
  - exists p, r, s. split; [reflexivity|lia].
  - destruct (IH p r s ltac:(lia)) as (q & r' & s' & Hi & Hd).
    assert (H2 : 2 <= Z.pos (digits2_pos q)) by (rewrite Hd; lia).
    destruct (shr_1_pos q r' s' H2) as (q2 & r2 & s2 & H1 & Hd2).
    exists q2, r2, s2. rewrite Nat.iter_succ, Hi, H1.
    split; [reflexivity|lia].
Qed.

(** Shifting a positive mantissa to its canonical exponent keeps it
    positive and keeps the magnitude, as long as the magnitude is above
    [emin]. *)
Lemma shr_fexp_pos p e l :
  emin64 < Z.pos (digits2_pos p) + e ->
  exists q r s e',
    shr_fexp prec emax (Z.pos p) e l = (Build_shr_record (Z.pos q) r s, e') /\
    Z.pos (digits2_pos q) + e' = Z.pos (digits2_pos p) + e.
Proof.
  intros H. unfold shr_fexp, shr. simpl Zdigits2.
  destruct (fexp prec emax (Z.pos (digits2_pos p) + e) - e) as [|n|n] eqn:Hn.
  - destruct l as [|[| |]]; simpl; do 4 eexists; split; reflexivity.
  - assert (Hlt : Z.pos n < Z.pos (digits2_pos p)).
    { unfold fexp, emin64, SpecFloat.emin, prec, emax in *. lia. }
    rewrite iter_pos_nat.
    assert (exists r s,
              shr_record_of_loc (Z.pos p) l = Build_shr_record (Z.pos p) r s)
      as (r & s & ->) by (destruct l as [|[| |]]; simpl; eauto).
    destruct (shr_iter_pos (Pos.to_nat n) p r s) as (q & r' & s' & Hi & Hd).
    { rewrite positive_nat_Z. exact Hlt. }
    rewrite Hi. exists q, r', s', (e + Z.pos n). split; [reflexivity|].
    rewrite positive_nat_Z in Hd. lia.
  - destruct l as [|[| |]]; simpl; do 4 eexists; split; reflexivity.
Qed.

Lemma digits2_pos_mono : forall p q,
  (p <= q)%positive -> (digits2_pos p <= digits2_pos q)%positive.
Proof.
  induction p as [p IH|p IH|]; intros [q|q|] H; cbn [digits2_pos];
    try (specialize (IH q)); lia.
Qed.

Lemma digits2_pos_iter_xO (d : positive) : forall m,
  digits2_pos (Pos.iter xO m d) = (digits2_pos m + d)%positive.
Proof.
  induction d as [d IH|d IH|]; intros m; cbn [Pos.iter digits2_pos];
    rewrite ?IH; lia.
Qed.

(** Aligning a mantissa to a smaller exponent keeps the magnitude. *)
Lemma shl_align_digits m e e0 :
  Z.pos (digits2_pos (fst (shl_align m e e0))) + snd (shl_align m e e0) =
  Z.pos (digits2_pos m) + e.
Proof.
  unfold shl_align. destruct (e0 - e) as [|d|d] eqn:Hd; cbn [fst snd];
    try reflexivity.
  rewrite digits2_pos_iter_xO. lia.
Qed.

Lemma shl_align_snd m e e0 : e0 <= e -> snd (shl_align m e e0) = e0.
Proof.
  intros H. unfold shl_align.
  destruct (e0 - e) as [|d|d] eqn:Hd; cbn [snd]; lia.
Qed.

Lemma round_nearest_even_pos p l :
  exists q, round_nearest_even (Z.pos p) l = Z.pos q /\ (p <= q)%positive.
Proof.
  destruct l as [|[| |]]; cbn [round_nearest_even].
  - exists p; split; [reflexivity|lia].
  - destruct (Z.even (Z.pos p)).
    + exists p; split; [reflexivity|lia].
    + exists (p + 1)%positive; split; [reflexivity|lia].
  - exists p; split; [reflexivity|lia].
  - exists (p + 1)%positive; split; [reflexivity|lia].
Qed.

(** Rounding a positive mantissa whose magnitude is above [emin] never
    gives zero. *)
Lemma binary_round_aux_nonzero s p e l :
  emin64 < Z.pos (digits2_pos p) + e ->
  nonzero_of_sign s (binary_round_aux prec emax s (Z.pos p) e l) = true.
Proof.
  intros H. unfold binary_round_aux.
  destruct (shr_fexp_pos p e l H) as (q & r & t & e' & -> & Hq).
  cbn [shr_m].
  destruct (round_nearest_even_pos q
              (loc_of_shr_record (Build_shr_record (Z.pos q) r t)))
    as (q2 & -> & Hle).
  destruct (shr_fexp_pos q2 e' loc_Exact) as (q3 & r3 & t3 & e3 & -> & Hq3).
  { pose proof (digits2_pos_mono q q2 Hle). lia. }
  cbn [shr_m]. destruct (e3 <=? emax - prec); cbn; now destruct s.
Qed.

Lemma binary_round_nonzero s p e :
  emin64 < Z.pos (digits2_pos p) + e ->
  nonzero_of_sign s (binary_round prec emax s p e) = true.
Proof.
  intros H. unfold binary_round.
  pose proof (shl_align_digits p e
                (fexp prec emax (Z.pos (digits2_pos p) + e))) as Hd.
  destruct (shl_align p e _) as [mz ez]. cbn [fst snd] in Hd.
  apply binary_round_aux_nonzero. lia.
Qed.

Lemma shr_1_nonneg mrs : 0 <= shr_m mrs -> 0 <= shr_m (shr_1 mrs).
Proof.
  destruct mrs as [[|[p|p|]|p] r t]; cbn; lia.
Qed.

Lemma shr_fexp_nonneg m e l :
  0 <= m -> 0 <= shr_m (fst (shr_fexp prec emax m e l)).
Proof.
  intros H. unfold shr_fexp, shr.
  assert (H0 : 0 <= shr_m (shr_record_of_loc m l))
    by (destruct l as [|[| |]]; exact H).
  destruct (fexp prec emax (Zdigits2 m + e) - e) as [|n|n]; cbn [fst];
    try exact H0.
  rewrite iter_pos_nat.
  induction (Pos.to_nat n) as [|k IH]; [exact H0|].
  rewrite Nat.iter_succ. now apply shr_1_nonneg.
Qed.

Lemma round_nearest_even_nonneg m l : 0 <= m -> 0 <= round_nearest_even m l.
Proof.
  intros H. destruct l as [|[| |]]; cbn [round_nearest_even];
    try destruct (Z.even m); lia.
Qed.

Lemma binary_round_aux_nonneg p e l :
  nonneg_sf (binary_round_aux prec emax false (Z.pos p) e l) = true.
Proof.
  unfold binary_round_aux.
  pose proof (shr_fexp_nonneg (Z.pos p) e l ltac:(lia)) as H1.
  destruct (shr_fexp prec emax (Z.pos p) e l) as [mrs e1]. cbn [fst] in H1.
  pose proof (round_nearest_even_nonneg _ (loc_of_shr_record mrs) H1) as H2.
  pose proof (shr_fexp_nonneg _ e1 loc_Exact H2) as H3.
  destruct (shr_fexp prec emax _ e1 loc_Exact) as [mrs2 e2]. cbn [fst] in H3.
  destruct (shr_m mrs2) as [|q|q]; [reflexivity| |lia].
  now destruct (e2 <=? emax - prec).
Qed.

Lemma nonzero_nonneg x : nonzero_of_sign false x = true -> nonneg_sf x = true.
Proof. destruct x as [[|]|[|]| |[|] m e]; cbn; congruence. Qed.

(** The conversion of a natural number is not negative. *)
Lemma of_uint63_nonneg (n : int) : nonneg_sf (Prim2SF (of_uint63 n)) = true.
Proof.
  rewrite of_uint63_spec.
  pose proof (Uint63.to_Z_bounded n) as Hb.
  destruct (Uint63.to_Z n) as [|p|p]; [reflexivity| |lia].
  cbn [binary_normalize]. apply nonzero_nonneg, binary_round_nonzero.
  unfold emin64, SpecFloat.emin, prec, emax. lia.
Qed.

Lemma mul_nonneg (x c : float) mc ec :
  nonneg_sf (Prim2SF x) = true ->
  Prim2SF c = S754_finite false mc ec ->
  nonneg_sf (Prim2SF (x * c)) = true.
Proof.
  rewrite FloatAxioms.mul_spec. unfold SF64mul. intros Hx ->.
  destruct (Prim2SF x) as [[|]|[|]| |[|] mx ex]; cbn in Hx |- *;
    try congruence.
  apply binary_round_aux_nonneg.
Qed.

(** What is below zero: [-infinity] or finite and negative. *)
Lemma ltb_zero_inv (y : float) :
  (y <? 0)%float = true -> nonzero_of_sign true (Prim2SF y) = true.
Proof.
  rewrite FloatAxioms.ltb_spec. change (Prim2SF 0) with (S754_zero false).
  destruct (Prim2SF y) as [[|]|[|]| |[|] m e]; cbn; congruence.
Qed.

Lemma zero_ltb (y : float) :
  nonzero_of_sign false (Prim2SF y) = true -> (0 <? y)%float = true.
Proof.
  rewrite FloatAxioms.ltb_spec. change (Prim2SF 0) with (S754_zero false).
  destruct (Prim2SF y) as [[|]|[|]| |[|] m e]; cbn; congruence.
Qed.

Lemma zero_leb (y : float) :
  nonneg_sf (Prim2SF y) = true -> (0 <=? y)%float = true.
Proof.
  rewrite FloatAxioms.leb_spec. change (Prim2SF 0) with (S754_zero false).
  destruct (Prim2SF y) as [[|]|[|]| |[|] m e]; cbn; congruence.
Qed.

(** A valid finite value has a magnitude above [emin]. *)
Lemma valid_magnitude (y : float) s m e :
  Prim2SF y = S754_finite s m e -> emin64 < Z.pos (digits2_pos m) + e.
Proof.
  intros H. pose proof (Prim2SF_valid y) as Hv. rewrite H in Hv.
  cbn [SpecFloat.valid_binary] in Hv.
  unfold bounded, canonical_mantissa in Hv.
  apply andb_true_iff in Hv as [Hc _]. apply Z.eqb_eq in Hc.
  unfold fexp, emin64, SpecFloat.emin, prec, emax in *. lia.
Qed.

(** Taking a negative value from one that is not negative gives a
    positive value: the rounded sum of two positive magnitudes cannot
    vanish. *)
Lemma sub_negative_positive (x y : float) :
  nonneg_sf (Prim2SF x) = true ->
  (y <? 0)%float = true ->
  (0 <? x - y)%float = true.
Proof.
  intros Hx Hy. apply zero_ltb. apply ltb_zero_inv in Hy.
  rewrite FloatAxioms.sub_spec. unfold SF64sub.
  pose proof (valid_magnitude y) as Hm.
  destruct (Prim2SF x) as [[|]|[|]| |[|] mx ex];
    destruct (Prim2SF y) as [[|]|[|]| |[|] my ey]; cbn in Hx, Hy |- *;
    try congruence.
  specialize (Hm true my ey eq_refl).
  cbn [cond_Zopp Z.opp Z.sub Z.add].
  cbn [binary_normalize].
  apply binary_round_nonzero.
  pose proof (shl_align_digits my ey (Z.min ex ey)) as Hd.
  rewrite shl_align_snd in Hd by lia.
  pose proof (digits2_pos_mono
                (fst (shl_align my ey (Z.min ex ey)))
                (fst (shl_align mx ex (Z.min ex ey)) +
                 fst (shl_align my ey (Z.min ex ey)))
                ltac:(lia)).
  lia.
Qed.

Lemma SFcompare_refl_finite s m e :
  SFcompare (S754_finite s m e) (S754_finite s m e) = Some Eq.
Proof.
  cbn. rewrite Z.compare_refl, Pos.compare_cont_refl. now destruct s.
Qed.

(** [0 - y] and [-y] are equal (as [==] has it) unless [y] is not a
    number. *)
Lemma zero_sub_eqb_opp (y : float) :
  Prim2SF y <> S754_nan -> (0 - y =? - y)%float = true.
Proof.
  rewrite FloatAxioms.eqb_spec, FloatAxioms.sub_spec, FloatAxioms.opp_spec.
  change (Prim2SF 0) with (S754_zero false).
  unfold SF64sub, SFeqb.
  destruct (Prim2SF y) as [[|]|[|]| |s m e]; cbn [SFsub SFopp negb];
    try reflexivity; try congruence.
  intros _. now rewrite SFcompare_refl_finite.
Qed.

(** A difference that compares with zero has no operand that is not a
    number. *)
Lemma leb_sub_not_nan (x y : float) :
  (0 <=? x - y)%float = true -> Prim2SF y <> S754_nan.
Proof.
  rewrite FloatAxioms.leb_spec, FloatAxioms.sub_spec.
  intros H Hn. rewrite Hn in H. unfold SF64sub in H.
  destruct (Prim2SF x) as [[|]|[|]| |[|] mx ex]; discriminate.
Qed.

End SpecFloatFacts.

(** ** Elapsed seconds *)

Section Elapsed.

Lemma wrap64_small z : in_int64 z -> wrap64 z = z.
Proof.
  unfold in_int64, int64_min, int64_max, wrap64. intros H.
  change (2 ^ 63) with 9223372036854775808.
  change (2 ^ 64) with 18446744073709551616.
  rewrite Z.mod_small; lia.
Qed.

(** Between two readings of a monotonic, representable clock the tick
    count is the plain difference, and it is not negative. *)
Lemma minus_monotonic (ck : nat -> time_point) i j :
  monotonic ck -> representable ck -> (i <= j)%nat ->
  count (minus (ck j) (ck i)) = ck j - ck i /\ 0 <= ck j - ck i.
Proof.
  intros Hm Hr Hij.
  pose proof (Hm i j Hij). pose proof (Hr i). pose proof (Hr j).
  unfold count, minus. rewrite wrap64_small; [lia|].
  unfold in_int64, int64_min, int64_max in *. lia.
Qed.

Lemma to_double_nonneg d : 0 <= d -> nonneg_sf (Prim2SF (to_double d)) = true.
Proof.
  intros H. unfold to_double.
  destruct (d <? 0) eqn:E; [apply Z.ltb_lt in E; lia|].
  apply of_uint63_nonneg.
Qed.

Lemma pow_10_m9_finite :
  Prim2SF pow_10_m9 = S754_finite false 4835703278458517 (-82).
Proof. vm_compute. reflexivity. Qed.

(** A tick count that is not negative makes seconds that are not
    negative. *)
Lemma seconds_nonneg d :
  0 <= d -> nonneg_sf (Prim2SF (to_double d * pow_10_m9)) = true.
Proof.
  intros H. eapply mul_nonneg; [now apply to_double_nonneg|].
  exact pow_10_m9_finite.
Qed.

End Elapsed.

(** ** The sample clocks *)

Lemma ticking_monotonic t0 step : 0 <= step -> monotonic (ticking t0 step).
Proof. intros Hs i j Hij. unfold ticking. nia. Qed.

Lemma ticking_representable t0 step :
  0 <= t0 -> 0 <= step -> representable (ticking t0 step).
Proof. intros H0 Hs i. unfold ticking, int64_max. nia. Qed.

(** ** C1: the three transitions of [TimedEvent::handle] *)

Section Handle.
Context {U : Type}.
Implicit Types (w : World U) (e : TimedEvent).

(** C1. [TimedEvent::handle()] is the three-transition machine.  For every
    event and world, [shouldHandle()] returns some [b] without changing the
    event, and then: if [b] is false, [handle()] returns false and changes
    no field; if [b] is true and [repeated] is true, [handle()] returns
    true, [startTime] becomes what [start()] then reads from the clock (the
    next reading, whatever [startTime] and [waitTime] were), and [handled]
    stays false; if [b] is true and [repeated] is false, [handle()] returns
    true and only sets [handled]. *)
Theorem handle_three_transitions e w :
  (exists b w1, TimedEvent.shouldHandle (e, w) = Returns b (e, w1)) /\
  (forall w1,
     TimedEvent.shouldHandle (e, w) = Returns false (e, w1) ->
     TimedEvent.handle (e, w) = Returns false (e, w1)) /\
  (forall w1,
     TimedEvent.shouldHandle (e, w) = Returns true (e, w1) ->
     repeated e = true ->
     TimedEvent.handle (e, w) =
       Returns true
         (mkTimedEvent (mkTimer (next_reading w1) (endTime (timer e)))
            false true (waitTime e),
          advance w1)) /\
  (forall w1,
     TimedEvent.shouldHandle (e, w) = Returns true (e, w1) ->
     repeated e = false ->
     TimedEvent.handle (e, w) =
       Returns true
         (mkTimedEvent (timer e) true false (waitTime e), w1)).
Proof.
  rewrite handle_eq, shouldHandle_eq.
  destruct e as [t h r wt]; simpl.
  destruct h; simpl.
  - repeat split; eauto; intros w1 H; inversion H.
  - destruct (0 <=? _)%float eqn:Hdue.
    + split; [eauto|]. split; [intros w1 H; inversion H|].
      split; intros w1 H Hr; inversion H; subst; reflexivity.
    + split; [eauto|]. split; [intros w1 H; inversion H; reflexivity|].
      split; intros w1 H; inversion H.
Qed.

End Handle.

(** ** C2: [JobEvent::handle] *)

Section JobHandle.
Context {U : Type}.
Implicit Types (w : World U) (e : TimedEvent) (j : JobEvent U).

Lemma jobs_of_app (l1 l2 : list Obs) :
  jobs_of (l1 ++ l2) = jobs_of l1 ++ jobs_of l2.
Proof.
  induction l1 as [|[t|s] l1 IH]; simpl; [reflexivity|assumption|].
  now rewrite IH.
Qed.

Lemma jobs_of_advance w : jobs_of (log (advance w)) = jobs_of (log w).
Proof. unfold advance; simpl. rewrite jobs_of_app; simpl. apply app_nil_r. Qed.

(** The inherited [handle] always returns, runs no job and leaves the
    user's state alone. *)
Lemma handle_returns e w :
  exists r e' w1,
    TimedEvent.handle (e, w) = Returns r (e', w1) /\
    jobs_of (log w1) = jobs_of (log w) /\
    user w1 = user w /\ clock w1 = clock w.
Proof.
  rewrite handle_eq.
  destruct (handled e); [now eauto 8|].
  destruct (0 <=? _)%float; [destruct (repeated e)|];
    do 3 eexists; (split; [reflexivity|]);
    rewrite ?jobs_of_advance; auto.
Qed.

(** [JobEvent::handle] in terms of the inherited call. *)
Lemma JobEvent_handle_eq j w r e' w1 :
  TimedEvent.handle (timed j, w) = Returns r (e', w1) ->
  JobEvent.handle (j, w) =
  if r then
    match job j with
    | None => Terminates (mkJobEvent e' (job j), w1)
    | Some f =>
        let w2 := mkWorld (clock w1) (reads w1) (snd (f e' (user w1)))
                    (log w1 ++ [JobInvoked e']) in
        match fst (f e' (user w1)) with
        | None => Returns true (mkJobEvent e' (job j), w2)
        | Some _ => Terminates (mkJobEvent e' (job j), w2)
        end
    end
  else Returns false (mkJobEvent e' (job j), w1).
Proof.
  intros H.
  unfold JobEvent.handle, noexcept, bind, JobEvent.inherited, on_base.
  rewrite H. unfold JobEvent.set_timed.
  destruct r; [|reflexivity].
  unfold this, invoke; simpl.
  destruct (job j) as [f|]; [|reflexivity].
  destruct (f e' (user w1)) as [[x|] u']; reflexivity.
Qed.

(** C2. For every [JobEvent] and world: the inherited
    [TimedEvent::handle()] runs first and returns some [r], leaving the
    event's base in state [e']; the stored callback is invoked exactly once
    if [r] is true and not at all if [r] is false, and the state it is
    invoked on is [e'], the state after the transition; whenever
    [JobEvent::handle()] returns, it returns [r], and it does return unless
    the invoked callback throws (or there is none to invoke). *)
Theorem JobEvent_handle_contract j w :
  exists r e' w1,
    TimedEvent.handle (timed j, w) = Returns r (e', w1) /\
    fst (final (JobEvent.handle (j, w))) = mkJobEvent e' (job j) /\
    jobs_of (log (snd (final (JobEvent.handle (j, w))))) =
      jobs_of (log w) ++
      (if r then match job j with Some _ => [e'] | None => [] end else []) /\
    result (JobEvent.handle (j, w)) =
      (if r then
         match job j with
         | Some f =>
             match fst (f e' (user w1)) with
             | None => Some true
             | Some _ => None
             end
         | None => None
         end
       else Some false) /\
    (forall b, result (JobEvent.handle (j, w)) = Some b -> b = r).
Proof.
  destruct (handle_returns (timed j) w) as (r & e' & w1 & H & Hj & Hu & _).
  exists r, e', w1. split; [exact H|].
  rewrite (JobEvent_handle_eq _ _ _ _ _ H).
  destruct r.
  - destruct (job j) as [f|]; simpl.
    + destruct (fst (f e' (user w1))); simpl;
        rewrite jobs_of_app, Hj; simpl;
        (repeat split; try reflexivity); intros b Hb; now inversion Hb.
    + rewrite Hj, app_nil_r. repeat split; intros b Hb; inversion Hb.
  - simpl. rewrite Hj, app_nil_r. repeat split. intros b Hb; now inversion Hb.
Qed.

End JobHandle.

(** ** Calls on objects *)

Section Calls.
Context {U : Type}.
Implicit Types (w : World U) (e : TimedEvent) (o : Object U).

Lemma set_base_same o : set_base o (base_of o) = o.
Proof. destruct o as [e|[e cb]|[[e cb] p]]; reflexivity. Qed.

Lemma base_of_set_base o e : base_of (set_base o e) = e.
Proof. destruct o as [e0|[e0 cb]|[[e0 cb] p]]; reflexivity. Qed.

Lemma on_base_returns {D B W A} (get : D -> B) (set : D -> B -> D)
  (m : Prog (B * W) A) d (w w' : W) a b :
  m (get d, w) = Returns a (b, w') ->
  on_base get set m (d, w) = Returns a (set d b, w').
Proof. intros H. unfold on_base. now rewrite H. Qed.

(** [handle()] on any object, in terms of the inherited call on its
    [TimedEvent] sub-object. *)
Lemma virtual_handle_eq o w r e' w1 :
  TimedEvent.handle (base_of o, w) = Returns r (e', w1) ->
  virtual_handle (o, w) =
  match job_of o with
  | None => Returns r (set_base o e', w1)
  | Some cb =>
      if r then
        match cb with
        | None => Terminates (set_base o e', w1)
        | Some f =>
            let w2 := mkWorld (clock w1) (reads w1) (snd (f e' (user w1)))
                        (log w1 ++ [JobInvoked e']) in
            match fst (f e' (user w1)) with
            | None => Returns true (set_base o e', w2)
            | Some _ => Terminates (set_base o e', w2)
            end
        end
      else Returns false (set_base o e', w1)
  end.
Proof.
  intros H. destruct o as [e|j|p]; simpl in *.
  - unfold as_class. now rewrite H.
  - unfold as_class. rewrite (JobEvent_handle_eq j w r e' w1 H).
    destruct j as [e cb]; simpl.
    destruct r; [|reflexivity].
    destruct cb as [f|]; [|reflexivity].
    destruct (fst (f e' (user w1))); reflexivity.
  - unfold as_class, PriorityEvent.inherited, on_base.
    rewrite (JobEvent_handle_eq (jobEvent p) w r e' w1 H).
    destruct p as [[e cb] q]; simpl.
    destruct r; [|reflexivity].
    destruct cb as [f|]; [|reflexivity].
    destruct (fst (f e' (user w1))); reflexivity.
Qed.

(** An event that was handled ignores [handle()]: nothing is read, nothing
    is written, no job runs. *)
Lemma handled_handle_noop o w :
  handled (base_of o) = true ->
  virtual_handle (o, w) = Returns false (o, w).
Proof.
  intros Hh.
  assert (H : TimedEvent.handle (base_of o, w) = Returns false (base_of o, w))
    by (rewrite handle_eq, Hh; reflexivity).
  rewrite (virtual_handle_eq _ _ _ _ _ H), set_base_same.
  now destruct (job_of o).
Qed.

(** A member function of [TimedEvent] that leaves the event alone, called
    on any object, leaves the object alone. *)
Lemma timed_member_const {A} (m : TimedEvent.M A) (inj : A -> Value U)
  o w a w' :
  m (base_of o, w) = Returns a (base_of o, w') ->
  timed_member m inj (o, w) = Returns (inj a) (o, w').
Proof.
  intros H. unfold timed_member, bind.
  now rewrite (on_base_returns _ _ _ _ _ _ _ _ H), set_base_same.
Qed.

(** The member functions of the derived classes compute on the spot,
    whatever the class of the object. *)
Ltac by_class o :=
  destruct o as [?|[? ?]|[[? ?] ?]]; do 3 eexists;
  (split; [reflexivity|]); repeat split; congruence.

(** Every call but [handle()] returns, keeps the [TimedEvent] sub-object
    as it is and runs no job; [isHandled()] returns the flag. *)
Lemma call_other_returns (c : Call U) o w :
  c <> call_handle ->
  exists v o' w',
    call c (o, w) = Returns v (o', w') /\
    base_of o' = base_of o /\
    class_of o' = class_of o /\
    jobs_of (log w') = jobs_of (log w) /\
    (c = call_isHandled -> v = VBool (handled (base_of o))).
Proof.
  intros Hc.
  destruct c; try congruence; clear Hc; try by_class o; cbn [call].
  - rewrite (timed_member_const _ _ _ _ _ _ (getLateness_eq _ _)).
    do 3 eexists. split; [reflexivity|].
    rewrite jobs_of_advance. repeat split; congruence.
  - rewrite (timed_member_const _ _ _ _ _ _ (isDue_eq _ _)).
    do 3 eexists. split; [reflexivity|].
    rewrite jobs_of_advance. repeat split; congruence.
  - pose proof (shouldHandle_eq (base_of o) w) as H.
    destruct (handled (base_of o));
      rewrite (timed_member_const _ _ _ _ _ _ H);
      do 3 eexists; (split; [reflexivity|]); rewrite ?jobs_of_advance;
      repeat split; congruence.
Qed.

End Calls.

(** ** C3: a one-shot event fires once *)

Section OneShot.
Context {U : Type}.
Implicit Types (w : World U) (e : TimedEvent) (o : Object U).

Lemma call_eq_dec_handle (c : Call U) : {c = call_handle} + {c <> call_handle}.
Proof. destruct c; (now left) || (right; discriminate). Qed.

(** Any run on a handled event returns, leaves the [TimedEvent] fields
    alone and runs no job; in it every [handle()] returns false and every
    [isHandled()] returns true. *)
Lemma handled_run (cs : list (Call U)) : forall o w,
  handled (base_of o) = true ->
  exists vs o' w',
    run cs (o, w) = Returns vs (o', w') /\
    base_of o' = base_of o /\
    jobs_of (log w') = jobs_of (log w) /\
    (forall i, nth_error cs i = Some call_handle ->
               nth_error vs i = Some (VBool false)) /\
    (forall i, nth_error cs i = Some call_isHandled ->
               nth_error vs i = Some (VBool true)).
Proof.
  induction cs as [|c cs IH]; intros o w Hh.
  - exists [], o, w. repeat split; intros [|i] H; discriminate.
  - destruct (call_eq_dec_handle c) as [->|Hc].
    + destruct (IH o w Hh) as (vs & o' & w' & Hrun & Hb & Hj & Hf & Ht).
      exists (VBool false :: vs), o', w'.
      simpl. unfold bind at 1. unfold bind at 1.
      rewrite (handled_handle_noop o w Hh). unfold ret at 1.
      unfold bind. rewrite Hrun. repeat split; auto.
      * intros [|i] H; [reflexivity|]. now apply Hf.
      * intros [|i] H; [discriminate|]. now apply Ht.
    + destruct (call_other_returns c o w Hc)
        as (v & o1 & w1 & Hcall & Hb1 & _ & Hj1 & Hv).
      assert (Hh1 : handled (base_of o1) = true) by congruence.
      destruct (IH o1 w1 Hh1) as (vs & o' & w' & Hrun & Hb & Hj & Hf & Ht).
      exists (v :: vs), o', w'.
      simpl. unfold bind at 1. rewrite Hcall.
      unfold bind. rewrite Hrun. repeat split; try congruence.
      * intros [|i] H; [simpl in H; congruence|]. now apply Hf.
      * intros [|i] H; [|now apply Ht].
        simpl in H. injection H as ->. simpl. now rewrite Hv, Hh.
Qed.

(** C3. For every one-shot event ([repeated = false], of any class of the
    hierarchy), once a [handle()] has returned true: [handled] is true;
    a [handle()] on the event, whatever its job or priority have become
    and whatever the time, returns false and changes neither the object
    nor the world; and every run of further calls returns, with each
    [handle()] in it returning false, each [isHandled()] returning true,
    the [TimedEvent] fields unchanged and no job invoked. *)
Theorem one_shot_fires_once o w o1 w1 :
  repeated (base_of o) = false ->
  virtual_handle (o, w) = Returns true (o1, w1) ->
  handled (base_of o1) = true /\
  (forall o2 (w2 : World U),
     base_of o2 = base_of o1 ->
     virtual_handle (o2, w2) = Returns false (o2, w2)) /\
  (forall (cs : list (Call U)) (w2 : World U),
     exists vs o3 w3,
       run cs (o1, w2) = Returns vs (o3, w3) /\
       base_of o3 = base_of o1 /\
       jobs_of (log w3) = jobs_of (log w2) /\
       (forall i, nth_error cs i = Some call_handle ->
                  nth_error vs i = Some (VBool false)) /\
       (forall i, nth_error cs i = Some call_isHandled ->
                  nth_error vs i = Some (VBool true))).
Proof.
  intros Hrep Hfire.
  assert (Hh : handled (base_of o1) = true).
  { destruct (handle_returns (base_of o) w) as (r & e' & w' & H & _).
    rewrite (virtual_handle_eq _ _ _ _ _ H) in Hfire.
    assert (He' : r = true -> handled e' = true).
    { intros ->. rewrite handle_eq in H.
      destruct (handled (base_of o)); [discriminate|].
      destruct (0 <=? _)%float; [|discriminate].
      rewrite Hrep in H. now inversion H. }
    destruct (job_of o) as [[f|]|].
    - destruct r; [|discriminate]. simpl in Hfire.
      destruct (fst (f e' (user w'))); [discriminate|].
      inversion Hfire. rewrite base_of_set_base. now apply He'.
    - destruct r; discriminate.
    - inversion Hfire; subst. rewrite base_of_set_base. now apply He'. }
  split; [exact Hh|]. split.
  - intros o2 w2 Hb. apply handled_handle_noop. congruence.
  - intros cs w2. now apply handled_run.
Qed.

End OneShot.

(** The one-shot job event, polled when it is due, fires; from then on a
    [handle()] returns false and changes nothing, and every run returns. *)
Lemma one_shot_fires_once_witness :
  repeated (base_of (JobEventObj counting_job_event)) = false /\
  virtual_handle (JobEventObj counting_job_event, sample_world) =
    Returns true
      (JobEventObj (mkJobEvent fired_event (Some count_up)),
       mkWorld (ticking 600000000 100000000) 1 1
         [ClockRead 600000000; JobInvoked fired_event]) /\
  handled (base_of (JobEventObj (mkJobEvent fired_event (Some count_up))))
    = true /\
  (forall o2 (w2 : World Z),
     base_of o2 = fired_event ->
     virtual_handle (o2, w2) = Returns false (o2, w2)).
Proof.
  split; [reflexivity|]. split; [reflexivity|].
  destruct (one_shot_fires_once (JobEventObj counting_job_event) sample_world
              (JobEventObj (mkJobEvent fired_event (Some count_up)))
              (mkWorld (ticking 600000000 100000000) 1 1
                 [ClockRead 600000000; JobInvoked fired_event])
              eq_refl eq_refl) as (Hh & Hnoop & _).
  split; [exact Hh|exact Hnoop].
Defined.

(** ** C4: a recurring event is never handled *)

Section Recurring.
Context {U : Type}.
Implicit Types (w : World U) (e : TimedEvent) (o : Object U).

Lemma final_bind {S A B} (m : Prog S A) (k : A -> Prog S B) s :
  final (bind m k s) =
  match m s with
  | Returns a s' => final (k a s')
  | Throws _ s' | Terminates s' => s'
  end.
Proof. unfold bind. now destruct (m s). Qed.

(** Where [handle()] on an object leaves it, returning or not. *)
Lemma virtual_handle_final o w r e' w1 :
  TimedEvent.handle (base_of o, w) = Returns r (e', w1) ->
  fst (final (virtual_handle (o, w))) = set_base o e'.
Proof.
  intros H. rewrite (virtual_handle_eq _ _ _ _ _ H).
  destruct (job_of o) as [[f|]|]; [|now destruct r|reflexivity].
  destruct r; [|reflexivity]. cbn zeta.
  now destruct (fst (f e' (user w1))).
Qed.

(** No call changes [repeated], and none sets [handled] on a recurring
    event. *)
Lemma recurring_call (c : Call U) o w :
  repeated (base_of o) = true ->
  handled (base_of o) = false ->
  repeated (base_of (fst (final (call c (o, w))))) = true /\
  handled (base_of (fst (final (call c (o, w))))) = false.
Proof.
  intros Hr Hh. destruct (call_eq_dec_handle c) as [->|Hc].
  - cbn [call]. rewrite final_bind.
    destruct (handle_returns (base_of o) w) as (r & e' & w1 & H & _).
    pose proof (virtual_handle_final o w r e' w1 H) as Hf.
    assert (He : repeated e' = true /\ handled e' = false).
    { rewrite handle_eq, Hh, Hr in H.
      destruct (0 <=? _)%float; inversion H; subst; cbn; auto. }
    destruct (virtual_handle (o, w)) as [a s|x s|s]; unfold ret;
      cbn [final] in Hf |- *; rewrite Hf, base_of_set_base; exact He.
  - destruct (call_other_returns c o w Hc) as (v & o' & w' & -> & Hb & _).
    cbn [final fst]. now rewrite Hb.
Qed.

Lemma recurring_run (cs : list (Call U)) : forall o w,
  repeated (base_of o) = true ->
  handled (base_of o) = false ->
  repeated (base_of (fst (final (run cs (o, w))))) = true /\
  handled (base_of (fst (final (run cs (o, w))))) = false.
Proof.
  induction cs as [|c cs IH]; intros o w Hr Hh; [now split|].
  cbn [run]. rewrite final_bind.
  destruct (recurring_call c o w Hr Hh) as [Hr1 Hh1].
  destruct (call c (o, w)) as [v [o1 w1]|x s|s]; cbn [final fst] in *; auto.
  rewrite final_bind.
  destruct (IH o1 w1 Hr1 Hh1) as [Hr2 Hh2].
  destruct (run cs (o1, w1)) as [vs s|x s|s]; unfold ret; cbn [final] in *;
    auto.
Qed.

(** C4. A recurring event is never handled.  Each constructor, given
    [repeated = true], returns an event with [handled = false].  From a
    state with [repeated = true] and [handled = false], whatever calls are
    made ([handle], [getLateness], [isDue], [isHandled], [shouldHandle],
    [getJob], [setJob], [getPriority], [setPriority], [hasPriority], [>])
    and wherever the run stops, the object still has [repeated = true] and
    [handled = false], and [isHandled()] returns false there.  After a
    [handle()] that returns true, [startTime] is the reading [start()] took
    from the clock and [waitTime] is what it was, so that lateness is the
    seconds elapsed since that reading minus [waitTime]: taken at that same
    reading it is [0 - waitTime], which equals [-waitTime]. *)
Theorem recurring_never_handled :
  (forall (wt : float) (cb : Callback U) (p : Z) w,
     TimedEvent.new true wt (tt, w) =
       Returns (mkTimedEvent (mkTimer (next_reading w) epoch) false true wt)
         (tt, advance w) /\
     JobEvent.new cb true wt (tt, w) =
       Returns
         (mkJobEvent
            (mkTimedEvent (mkTimer (next_reading w) epoch) false true wt) cb)
         (tt, advance w) /\
     PriorityEvent.new cb p true wt (tt, w) =
       Returns
         (mkPriorityEvent
            (mkJobEvent
               (mkTimedEvent (mkTimer (next_reading w) epoch) false true wt)
               cb) p)
         (tt, advance w)) /\
  (forall o w (cs : list (Call U)),
     repeated (base_of o) = true ->
     handled (base_of o) = false ->
     repeated (base_of (fst (final (run cs (o, w))))) = true /\
     handled (base_of (fst (final (run cs (o, w))))) = false /\
     forall w' : World U,
       call call_isHandled (fst (final (run cs (o, w))), w') =
       Returns (VBool false) (fst (final (run cs (o, w))), w')) /\
  (forall o w o' w',
     repeated (base_of o) = true ->
     virtual_handle (o, w) = Returns true (o', w') ->
     handled (base_of o') = false /\
     startTime (timer (base_of o')) = next_reading (advance w) /\
     waitTime (base_of o') = waitTime (base_of o) /\
     (forall n : time_point,
        TimedEvent.lateness_at n (base_of o') =
        (Timer.seconds_between (next_reading (advance w)) n
         - waitTime (base_of o))%float) /\
     TimedEvent.lateness_at (startTime (timer (base_of o'))) (base_of o') =
       (0 - waitTime (base_of o))%float /\
     (TimedEvent.lateness_at (startTime (timer (base_of o'))) (base_of o')
      =? - waitTime (base_of o))%float = true).
Proof.
  split; [intros wt cb p w; repeat split|]. split.
  - intros o w cs Hr Hh.
    destruct (recurring_run cs o w Hr Hh) as [Hr' Hh'].
    split; [exact Hr'|]. split; [exact Hh'|]. intros w'.
    cbn [call]. unfold timed_member, bind.
    rewrite (on_base_returns _ _ _ _ _ _ _ _ (isHandled_eq _ w')).
    now rewrite set_base_same, Hh'.
  - intros o w o' w' Hr Hfire.
    destruct (handle_returns (base_of o) w) as (r & e' & w1 & H & _).
    pose proof (virtual_handle_final o w r e' w1 H) as Hf.
    rewrite Hfire in Hf. cbn [final fst] in Hf. subst o'.
    rewrite base_of_set_base.
    assert (Hr' : r = true).
    { rewrite (virtual_handle_eq _ _ _ _ _ H) in Hfire.
      destruct (job_of o) as [[f|]|]; destruct r; try discriminate;
        reflexivity. }
    subst r. rewrite handle_eq, Hr in H.
    destruct (handled (base_of o)) eqn:Hh; [discriminate|].
    destruct (0 <=? _)%float eqn:Hdue; [|discriminate].
    inversion H; subst e' w1; clear H.
    cbn [TimedEvent.restarted TimedEvent.set_timer handled timer startTime
         waitTime].
    split; [exact Hh|]. do 2 (split; [reflexivity|]).
    split; [intros n; reflexivity|].
    unfold TimedEvent.lateness_at in *.
    cbn [timer startTime waitTime].
    unfold count, minus. rewrite Z.sub_diag.
    change (to_double (wrap64 0) * pow_10_m9)%float with 0%float.
    split; [reflexivity|].
    apply zero_sub_eqb_opp. exact (leb_sub_not_nan _ _ Hdue).
Qed.

End Recurring.

(** ** C5: the constructors keep the wait-duration they are given *)

Section Construction.
Context {U : Type}.
Implicit Types (w : World U).

(** C5, as the code has it.  No constructor rejects or clamps a
    wait-duration: for every [wt], negative or not, each constructor
    returns an event whose [waitTime] is [wt] itself. *)
Theorem constructors_store_wait_time (rep : bool) (wt : float)
  (cb : Callback U) (p : Z) w :
  TimedEvent.new rep wt (tt, w) =
    Returns (mkTimedEvent (mkTimer (next_reading w) epoch) false rep wt)
      (tt, advance w) /\
  JobEvent.new cb rep wt (tt, w) =
    Returns
      (mkJobEvent
         (mkTimedEvent (mkTimer (next_reading w) epoch) false rep wt) cb)
      (tt, advance w) /\
  PriorityEvent.new cb p rep wt (tt, w) =
    Returns
      (mkPriorityEvent
         (mkJobEvent
            (mkTimedEvent (mkTimer (next_reading w) epoch) false rep wt) cb)
         p)
      (tt, advance w) /\
  waitTime (mkTimedEvent (mkTimer (next_reading w) epoch) false rep wt) = wt.
Proof. repeat split. Qed.

End Construction.

(** C5 fails as stated: constructing an event with the wait-duration [-1]
    returns an event that stores [-1], which is below zero. *)
Lemma negative_wait_accepted :
  TimedEvent.new false (-1)%float (tt, sample_world) =
    Returns (mkTimedEvent (mkTimer 600000000 0) false false (-1)%float)
      (tt, advance sample_world) /\
  (waitTime (mkTimedEvent (mkTimer 600000000 0) false false (-1)) <? 0)%float
    = true.
Proof. split; reflexivity. Qed.

(** ** C6: a callback that throws *)

Section CallbackThrows.
Context {U : Type}.
Implicit Types (w : World U) (e : TimedEvent) (j : JobEvent U).

(** [JobEvent::handle] is [noexcept]: nothing is ever thrown out of it. *)
Lemma JobEvent_handle_never_throws j w x s :
  JobEvent.handle (j, w) <> Throws x s.
Proof.
  unfold JobEvent.handle, noexcept.
  destruct (bind _ _ (j, w)); discriminate.
Qed.

(** C6, as the code has it.  Take a [JobEvent] whose callback throws when
    the event fires.  The callback was invoked on the event after its
    transition ([handled] already true for a one-shot event, [startTime]
    already restarted and [handled] still false for a recurring one); and
    since [handle()] is [noexcept] the exception does not reach the caller:
    the call ends in [std::terminate], whatever was thrown. *)
Theorem callback_exception_terminates j w (f : Job U) e' w1 x u' :
  job j = Some f ->
  TimedEvent.handle (timed j, w) = Returns true (e', w1) ->
  f e' (user w1) = (Some x, u') ->
  JobEvent.handle (j, w) =
    Terminates
      (mkJobEvent e' (Some f),
       mkWorld (clock w1) (reads w1) u' (log w1 ++ [JobInvoked e'])) /\
  (repeated (timed j) = false -> handled e' = true) /\
  (repeated (timed j) = true ->
   handled e' = false /\ startTime (timer e') = next_reading (advance w)) /\
  (forall x' s, JobEvent.handle (j, w) <> Throws x' s).
Proof.
  intros Hj H Hf.
  rewrite (JobEvent_handle_eq j w true e' w1 H), Hj. cbn zeta. rewrite Hf.
  cbn [fst snd]. split; [reflexivity|].
  rewrite handle_eq in H.
  destruct (handled (timed j)) eqn:Hh; [discriminate|].
  destruct (0 <=? _)%float; [|discriminate].
  split; [|split].
  - intros Hr. rewrite Hr in H. now inversion H.
  - intros Hr. rewrite Hr in H. inversion H; subst. now split.
  - intros x' s. discriminate.
Qed.

End CallbackThrows.

(** C6 fails as stated: the one-shot event is due, its callback throws
    [user_exception 7], and [handle()] does not hand that exception to its
    caller: the outcome is [std::terminate]. *)
Lemma callback_exception_not_propagated :
  JobEvent.handle (throwing_job_event, sample_world) =
  Terminates
    (mkJobEvent fired_event (Some throwing),
     mkWorld (ticking 600000000 100000000) 1 0
       [ClockRead 600000000; JobInvoked fired_event]).
Proof. reflexivity. Qed.

(** The throwing job event, polled when it is due: the callback saw the
    fired event, and the call ended in [std::terminate]. *)
Lemma callback_exception_terminates_witness :
  job throwing_job_event = Some throwing /\
  TimedEvent.handle (timed throwing_job_event, sample_world) =
    Returns true (fired_event, advance sample_world) /\
  throwing fired_event (user (advance sample_world)) =
    (Some (user_exception 7), 0) /\
  JobEvent.handle (throwing_job_event, sample_world) =
    Terminates
      (mkJobEvent fired_event (Some throwing),
       mkWorld (clock (advance sample_world)) (reads (advance sample_world)) 0
         (log (advance sample_world) ++ [JobInvoked fired_event])) /\
  handled fired_event = true.
Proof.
  split; [reflexivity|]. split; [reflexivity|]. split; [reflexivity|].
  destruct (callback_exception_terminates throwing_job_event sample_world
              throwing fired_event (advance sample_world)
              (user_exception 7) 0 eq_refl eq_refl eq_refl)
    as (Hterm & Hone & _).
  split; [exact Hterm|exact (Hone eq_refl)].
Defined.

(** ** C7: the priority order *)

Section Priority.
Context {U : Type}.
Implicit Types (w : World U) (a b c : PriorityEvent U).

Lemma gt_eq a b w :
  PriorityEvent.gt b (a, w) = Returns (priority a >? priority b) (a, w).
Proof. reflexivity. Qed.

Lemma above_eq w a b : above w a b = (priority a >? priority b).
Proof. reflexivity. Qed.

(** C7. [a > b] returns exactly [a.priority > b.priority] (and changes
    nothing), [hasPriority] gives the same answer, and so the relation is
    irreflexive, asymmetric and transitive, and two events of equal
    priority are not related either way. *)
Theorem priority_order_strict w a b c :
  PriorityEvent.gt b (a, w) = Returns (priority a >? priority b) (a, w) /\
  PriorityEvent.hasPriority b (a, w) = PriorityEvent.gt b (a, w) /\
  (above w a b = true <-> priority a > priority b) /\
  above w a a = false /\
  (above w a b = true -> above w b a = false) /\
  (above w a b = true -> above w b c = true -> above w a c = true) /\
  (priority a = priority b -> above w a b = false /\ above w b a = false).
Proof.
  rewrite !above_eq.
  split; [reflexivity|]. split; [reflexivity|].
  split; [apply Z.gtb_gt|].
  rewrite !Z.gtb_ltb.
  split; [apply Z.ltb_irrefl|].
  split; [intros H; apply Z.ltb_lt in H; apply Z.ltb_ge; lia|].
  split.
  - intros H1 H2. apply Z.ltb_lt in H1, H2. apply Z.ltb_lt. lia.
  - intros ->. now rewrite Z.ltb_irrefl.
Qed.

End Priority.

(** ** C8: [handle] is dispatched on the object's own class *)

Section Polymorphism.
Context {U : Type}.
Implicit Types (w : World U) (o : Object U) (s : Class).

Lemma handle_via_virtual s o w : handle_via s (o, w) = virtual_handle (o, w).
Proof.
  unfold handle_via.
  assert (Hv : handle_is_virtual s = true) by now destruct s.
  rewrite Hv.
  destruct o as [e|j|p]; reflexivity.
Qed.

(** C8. Through a reference of any static type [s] the object's class
    derives from, [handle()] runs what it runs on the object's own class:
    [JobEvent::handle] for a [JobEvent] and for a [PriorityEvent]; so when
    the event fires and holds a callback, the callback is invoked (once, on
    the event after its transition). *)
Theorem handle_dispatches_dynamically s o w :
  derives (class_of o) s = true ->
  handle_via s (o, w) = handle_via (class_of o) (o, w) /\
  (forall j, o = JobEventObj j ->
     handle_via s (o, w) = as_class JobEventObj j JobEvent.handle w) /\
  (forall p, o = PriorityEventObj p ->
     handle_via s (o, w) =
     as_class PriorityEventObj p (PriorityEvent.inherited JobEvent.handle) w) /\
  (forall (f : Job U) e' w1,
     job_of o = Some (Some f) ->
     TimedEvent.handle (base_of o, w) = Returns true (e', w1) ->
     jobs_of (log (snd (final (handle_via s (o, w))))) =
       jobs_of (log w) ++ [e']).
Proof.
  intros _. rewrite !handle_via_virtual.
  split; [reflexivity|]. split; [now intros j ->|]. split; [now intros p ->|].
  intros f e' w1 Hj H.
  rewrite (virtual_handle_eq _ _ _ _ _ H), Hj. cbn zeta.
  destruct (handle_returns (base_of o) w) as (r & e2 & w2 & H2 & Hjobs & _).
  rewrite H in H2. inversion H2; subst r e2 w2.
  destruct (fst (f e' (user w1))); cbn [final snd log];
    now rewrite jobs_of_app, Hjobs.
Qed.

End Polymorphism.

(** A priority event behind a [TimedEvent&]: the callback runs. *)
Lemma handle_dispatches_dynamically_witness :
  derives (class_of (PriorityEventObj (counting_priority_event 5)))
    TimedEventClass = true /\
  handle_via TimedEventClass
    (PriorityEventObj (counting_priority_event 5), sample_world) =
  handle_via PriorityEventClass
    (PriorityEventObj (counting_priority_event 5), sample_world) /\
  jobs_of
    (log (snd (final (handle_via TimedEventClass
                        (PriorityEventObj (counting_priority_event 5),
                         sample_world))))) =
  jobs_of (log sample_world) ++ [fired_event].
Proof.
  split; [reflexivity|].
  destruct (handle_dispatches_dynamically TimedEventClass
              (PriorityEventObj (counting_priority_event 5)) sample_world
              eq_refl) as (Hsame & _ & _ & Hjob).
  split; [exact Hsame|].
  exact (Hjob count_up fired_event (advance sample_world) eq_refl eq_refl).
Defined.

(** ** C9: the stopwatch *)

Section Stopwatch.
Context {U : Type}.
Implicit Types (w : World U) (t : Timer).

(** C9. Take a clock that is monotonic (and whose readings fit the
    representation).  When [start()] is called in a world [w] and [stop()]
    later, in a world [w'] of the same clock with more readings taken, both
    return, [startTime] and [endTime] are the two readings with
    [startTime <= endTime], and from then on [getTimePassed()] returns the
    tick count [endTime - startTime] converted to [double] and multiplied
    by [pow(10, -9)], a value that compares [>= 0]. *)
Theorem stopwatch_elapsed_nonneg t w w' :
  monotonic (clock w) ->
  representable (clock w) ->
  clock w' = clock w ->
  (reads w < reads w')%nat ->
  exists t1 t2,
    Timer.start (t, w) = Returns tt (t1, advance w) /\
    Timer.stop (t1, w') = Returns tt (t2, advance w') /\
    startTime t2 = next_reading w /\
    endTime t2 = next_reading w' /\
    startTime t2 <= endTime t2 /\
    forall w'' : World U,
      Timer.getTimePassed (t2, w'') =
        Returns (to_double (endTime t2 - startTime t2) * pow_10_m9)%float
          (t2, w'') /\
      (0 <=? to_double (endTime t2 - startTime t2) * pow_10_m9)%float = true.
Proof.
  intros Hm Hr Hck Hlt.
  exists (mkTimer (next_reading w) (endTime t)),
         (mkTimer (next_reading w) (next_reading w')).
  split; [apply Timer_start_eq|]. split; [apply Timer_stop_eq|].
  cbn [startTime endTime]. split; [reflexivity|]. split; [reflexivity|].
  unfold next_reading. rewrite Hck.
  destruct (minus_monotonic (clock w) (reads w) (reads w') Hm Hr ltac:(lia))
    as [Hcount Hpos].
  split; [lia|]. intros w''.
  rewrite Timer_getTimePassed_eq. unfold Timer.seconds_between.
  cbn [startTime endTime]. rewrite Hcount.
  split; [reflexivity|]. now apply zero_leb, seconds_nonneg.
Qed.

End Stopwatch.

(** A stopwatch started at 0.6 s and stopped at 0.7 s. *)
Lemma stopwatch_elapsed_nonneg_witness :
  monotonic (clock sample_world) /\
  representable (clock sample_world) /\
  (reads sample_world < reads (advance sample_world))%nat /\
  exists t1 t2,
    Timer.start (Timer.new, sample_world) =
      Returns tt (t1, advance sample_world) /\
    Timer.stop (t1, advance sample_world) =
      Returns tt (t2, advance (advance sample_world)) /\
    startTime t2 = next_reading sample_world /\
    endTime t2 = next_reading (advance sample_world) /\
    startTime t2 <= endTime t2 /\
    forall w'' : World Z,
      Timer.getTimePassed (t2, w'') =
        Returns (to_double (endTime t2 - startTime t2) * pow_10_m9)%float
          (t2, w'') /\
      (0 <=? to_double (endTime t2 - startTime t2) * pow_10_m9)%float = true.
Proof.
  assert (Hm : monotonic (clock sample_world))
    by (apply ticking_monotonic; lia).
  assert (Hr : representable (clock sample_world))
    by (apply ticking_representable; lia).
  split; [exact Hm|]. split; [exact Hr|]. split; [simpl; lia|].
  apply (stopwatch_elapsed_nonneg Timer.new sample_world
           (advance sample_world) Hm Hr eq_refl).
  simpl; lia.
Defined.

(** ** C10: a negative wait-duration *)

Section NegativeWait.
Context {U : Type}.
Implicit Types (w : World U) (e : TimedEvent).

Lemma TimedEvent_new_eq rep wt w :
  TimedEvent.new rep wt (tt, w) =
  Returns (mkTimedEvent (mkTimer (next_reading w) epoch) false rep wt)
    (tt, advance w).
Proof. reflexivity. Qed.

(** With a negative wait-duration the lateness is positive at every
    reading that is not before the start. *)
Lemma negative_wait_lateness e (n : time_point) :
  (waitTime e <? 0)%float = true ->
  0 <= count (minus n (startTime (timer e))) ->
  (0 <? TimedEvent.lateness_at n e)%float = true.
Proof.
  intros Hw Hd. unfold TimedEvent.lateness_at.
  apply sub_negative_positive; [|exact Hw]. now apply seconds_nonneg.
Qed.

Lemma ltb_leb_zero (y : float) :
  (0 <? y)%float = true -> (0 <=? y)%float = true.
Proof.
  rewrite FloatAxioms.ltb_spec, FloatAxioms.leb_spec.
  unfold SFltb, SFleb. now destruct (SFcompare _ _) as [[| |]|].
Qed.

(** C10. Take a clock that is monotonic (and whose readings fit the
    representation) and a wait-duration [wt < 0].  The constructor returns
    and stores [wt] as it is, with [handled] false.  From then on the event
    is due whenever it is asked: for every state of an event with that
    wait-duration whose [startTime] is a reading already taken (the
    constructor's, or that of a later restart), at every later moment,
    [lateness()] is the seconds elapsed since [startTime] minus [wt] and
    is positive, [isDue()] returns true, [shouldHandle()]
    returns true exactly when [handled] is false, and [handle()] returns
    true when [handled] is false; in particular the first [handle()] after
    construction returns true. *)
Theorem negative_wait_permanently_due (rep : bool) (wt : float) w :
  (wt <? 0)%float = true ->
  monotonic (clock w) ->
  representable (clock w) ->
  exists e0,
    TimedEvent.new rep wt (tt, w) = Returns e0 (tt, advance w) /\
    waitTime e0 = wt /\
    handled e0 = false /\
    startTime (timer e0) = clock w (reads w) /\
    (forall e (w' : World U) k,
       waitTime e = wt ->
       startTime (timer e) = clock w k ->
       clock w' = clock w ->
       (k <= reads w')%nat ->
       TimedEvent.lateness_at (next_reading w') e =
         (Timer.seconds_between (clock w k) (next_reading w') - wt)%float /\
       (0 <? TimedEvent.lateness_at (next_reading w') e)%float = true /\
       TimedEvent.getLateness (e, w') =
         Returns (TimedEvent.lateness_at (next_reading w') e) (e, advance w') /\
       TimedEvent.isDue (e, w') = Returns true (e, advance w') /\
       (handled e = false ->
        TimedEvent.shouldHandle (e, w') = Returns true (e, advance w') /\
        exists e' w'', TimedEvent.handle (e, w') = Returns true (e', w''))) /\
    (forall w' : World U,
       clock w' = clock w ->
       (reads w <= reads w')%nat ->
       exists e' w'', TimedEvent.handle (e0, w') = Returns true (e', w'')).
Proof.
  intros Hwt Hm Hr.
  exists (mkTimedEvent (mkTimer (next_reading w) epoch) false rep wt).
  split; [apply TimedEvent_new_eq|]. cbn [waitTime handled startTime timer].
  do 3 (split; [reflexivity|]).
  assert (Hdue : forall e (w' : World U) k,
            waitTime e = wt -> startTime (timer e) = clock w k ->
            clock w' = clock w -> (k <= reads w')%nat ->
            (0 <? TimedEvent.lateness_at (next_reading w') e)%float = true).
  { intros e w' k He Hs Hck Hk. apply negative_wait_lateness; [now rewrite He|].
    unfold next_reading. rewrite Hs, Hck.
    destruct (minus_monotonic (clock w) k (reads w') Hm Hr Hk) as [-> H].
    exact H. }
  assert (Hfire : forall e (w' : World U) k,
            waitTime e = wt -> startTime (timer e) = clock w k ->
            clock w' = clock w -> (k <= reads w')%nat -> handled e = false ->
            exists e' w'', TimedEvent.handle (e, w') = Returns true (e', w'')).
  { intros e w' k He Hs Hck Hk Hh. rewrite handle_eq, Hh.
    rewrite (ltb_leb_zero _ (Hdue e w' k He Hs Hck Hk)).
    destruct (repeated e); eauto. }
  split.
  - intros e w' k He Hs Hck Hk.
    pose proof (Hdue e w' k He Hs Hck Hk) as Hl.
    split; [unfold TimedEvent.lateness_at; now rewrite He, Hs|].
    split; [exact Hl|]. split; [apply getLateness_eq|].
    split; [rewrite isDue_eq, (ltb_leb_zero _ Hl); reflexivity|].
    intros Hh. split; [|now apply (Hfire e w' k)].
    rewrite shouldHandle_eq, Hh, (ltb_leb_zero _ Hl). reflexivity.
  - intros w' Hck Hk. apply (Hfire _ w' (reads w)); auto.
Qed.

End NegativeWait.

(** An event that waits minus one second is due at its first poll. *)
Lemma negative_wait_permanently_due_witness :
  (-1 <? 0)%float = true /\
  monotonic (clock sample_world) /\
  representable (clock sample_world) /\
  exists e' w'',
    TimedEvent.handle
      (mkTimedEvent (mkTimer (next_reading sample_world) epoch) false false
         (-1)%float,
       advance sample_world) = Returns true (e', w'').
Proof.
  assert (Hm : monotonic (clock sample_world))
    by (apply ticking_monotonic; lia).
  assert (Hr : representable (clock sample_world))
    by (apply ticking_representable; lia).
  split; [reflexivity|]. split; [exact Hm|]. split; [exact Hr|].
  destruct (negative_wait_permanently_due false (-1)%float sample_world
              eq_refl Hm Hr) as (e0 & Hnew & _ & _ & _ & _ & Hfirst).
  rewrite TimedEvent_new_eq in Hnew. inversion Hnew; subst e0.
  apply (Hfirst (advance sample_world) eq_refl). simpl; lia.
Defined.

(** ** Scenarios *)

(** A one-shot job event that waits 0.5 s, polled at 0.3 s, 0.4 s, 0.5 s
    and 0.6 s: it fires at the third poll only, and its job ran once. *)
Example one_shot_polled :
  result (run [call_handle; call_handle; call_handle; call_handle;
               call_isHandled]
            (JobEventObj counting_job_event, early_world)) =
    Some [VBool false; VBool false; VBool true; VBool false; VBool true] /\
  user (snd (final (run [call_handle; call_handle; call_handle; call_handle;
                         call_isHandled]
                      (JobEventObj counting_job_event, early_world)))) = 1.
Proof. split; reflexivity. Qed.

(** The recurring event polled at 0.6 s: [start()] reads the clock again
    and gets 0.7 s, which becomes [startTime], where [startTime + waitTime]
    would have been 0.5 s. *)
Example recurring_restarts_from_now :
  TimedEvent.handle (recurring_event, sample_world) =
  Returns true
    (mkTimedEvent (mkTimer 700000000 0) false true 0.5%float,
     mkWorld (ticking 600000000 100000000) 2 0
       [ClockRead 600000000; ClockRead 700000000]).
Proof. reflexivity. Qed.

(** A recurring job event that waits 0.5 s, polled from 0.3 s on: it fires
    at 0.5 s, restarts at 0.6 s, is 0.3 s early at 0.8 s and fires again at
    1.1 s; it is never handled. *)
Example recurring_polled :
  result (run [call_handle; call_handle; call_handle; call_handle;
               call_isHandled; call_getLateness; call_handle; call_handle;
               call_handle; call_isHandled]
            (JobEventObj (mkJobEvent recurring_event (Some count_up)),
             early_world)) =
    Some [VBool false; VBool false; VBool true; VBool false; VBool false;
          VDouble (TimedEvent.lateness_at 800000000
                     (mkTimedEvent (mkTimer 600000000 0) false true 0.5%float));
          VBool false; VBool false; VBool true; VBool false] /\
  (TimedEvent.lateness_at 800000000
     (mkTimedEvent (mkTimer 600000000 0) false true 0.5%float) <? 0)%float
    = true.
Proof. split; reflexivity. Qed.

(** An event that waits 0.1 s (the double nearest to it) is early at
    30 ms and late at 150 ms. *)
Example lateness_is_signed :
  (TimedEvent.lateness_at 30000000
     (mkTimedEvent (mkTimer 0 0) false false 0x1.999999999999ap-4%float)
   <? 0)%float = true /\
  (0 <? TimedEvent.lateness_at 150000000
          (mkTimedEvent (mkTimer 0 0) false false 0x1.999999999999ap-4%float))
    %float = true.
Proof. split; reflexivity. Qed.

(** One and a half billion ticks are 1.5 seconds. *)
Example seconds_between_sample :
  Timer.seconds_between 0 1500000000 = 1.5%float.
Proof. reflexivity. Qed.

(** Priorities 5, 5 and 7. *)
Example priorities_5_5_7 :
  above sample_world (counting_priority_event 7) (counting_priority_event 5)
    = true /\
  above sample_world (counting_priority_event 5) (counting_priority_event 5)
    = false /\
  above sample_world (counting_priority_event 5) (counting_priority_event 7)
    = false.
Proof. repeat split. Qed.

(** The qualified call [TimedEvent::handle()] on a job event is not
    dispatched: the event fires but no job runs. *)
Example qualified_call_runs_no_job :
  qualified_base_handle (JobEventObj counting_job_event, sample_world) =
  Returns true
    (JobEventObj (mkJobEvent fired_event (Some count_up)),
     mkWorld (ticking 600000000 100000000) 1 0 [ClockRead 600000000]).
Proof. reflexivity. Qed.

(** An empty [std::function]: when the event fires, the call throws
    [std::bad_function_call] inside [handle()], which ends the program. *)
Example empty_callback_terminates :
  JobEvent.handle (mkJobEvent one_shot_event None, sample_world) =
  Terminates
    (mkJobEvent fired_event None,
     mkWorld (ticking 600000000 100000000) 1 0 [ClockRead 600000000]).
Proof. reflexivity. Qed.

(** * Further properties *)

(** ** Differences and comparisons in binary64 *)

Section Compare.












(** Nothing reaches a wait that is [+infinity] or not a number. *)
Lemma sub_never_reached (x y : float) :
  never_reached (Prim2SF y) = true -> (0 <=? x - y)%float = false.
Proof.
  rewrite FloatAxioms.leb_spec, FloatAxioms.sub_spec.
  change (Prim2SF 0) with (S754_zero false). unfold SF64sub, SFleb.
  destruct (Prim2SF y) as [sy|[|]| |sy my ey]; try discriminate; intros _;
    destruct (Prim2SF x) as [sx|[|]| |sx mx ex]; reflexivity.
Qed.

(** From zero, a difference is not negative exactly when what is taken
    away is not positive. *)
Lemma zero_sub_leb (y : float) : (0 <=? 0 - y)%float = (y <=? 0)%float.
Proof.
  rewrite !FloatAxioms.leb_spec, FloatAxioms.sub_spec.
  change (Prim2SF 0) with (S754_zero false). unfold SF64sub, SFleb.
  destruct (Prim2SF y) as [[|]|[|]| |[|] my ey]; reflexivity.
Qed.

Lemma binary_round_aux_has_sign s p e l :
  has_sign s (binary_round_aux prec emax s (Z.pos p) e l) = true.
Proof.
  unfold binary_round_aux.
  pose proof (shr_fexp_nonneg (Z.pos p) e l ltac:(lia)) as H1.
  destruct (shr_fexp prec emax (Z.pos p) e l) as [mrs e1]. cbn [fst] in H1.
  pose proof (round_nearest_even_nonneg _ (loc_of_shr_record mrs) H1) as H2.
  pose proof (shr_fexp_nonneg _ e1 loc_Exact H2) as H3.
  destruct (shr_fexp prec emax _ e1 loc_Exact) as [mrs2 e2]. cbn [fst] in H3.
  destruct (shr_m mrs2) as [|q|q]; [now destruct s| |lia].
  destruct (e2 <=? emax - prec); now destruct s.
Qed.

Lemma mul_has_sign (s : bool) (x c : float) mc ec :
  has_sign s (Prim2SF x) = true ->
  Prim2SF c = S754_finite false mc ec ->
  has_sign s (Prim2SF (x * c)) = true.
Proof.
  rewrite FloatAxioms.mul_spec. unfold SF64mul. intros Hx ->.
  destruct (Prim2SF x) as [sx|sx| |sx mx ex]; cbn in Hx |- *;
    try discriminate; rewrite xorb_false_r; try exact Hx.
  apply eqb_prop in Hx. subst sx. apply binary_round_aux_has_sign.
Qed.

Lemma opp_has_sign (x : float) :
  nonneg_sf (Prim2SF x) = true -> has_sign true (Prim2SF (- x)) = true.
Proof.
  rewrite FloatAxioms.opp_spec.
  destruct (Prim2SF x) as [[|]|[|]| |[|] m e]; cbn; congruence.
Qed.

Lemma leb_zero_of_sign (y : float) :
  has_sign true (Prim2SF y) = true -> (y <=? 0)%float = true.
Proof.
  rewrite FloatAxioms.leb_spec. change (Prim2SF 0) with (S754_zero false).
  destruct (Prim2SF y) as [[|]|[|]| |[|] m e]; cbn; congruence.
Qed.

(** The conversion of a negative tick count is negative. *)
Lemma to_double_negative d :
  d < 0 -> has_sign true (Prim2SF (to_double d)) = true.
Proof.
  intros H. unfold to_double.
  destruct (d <? 0) eqn:E; [|apply Z.ltb_ge in E; lia].
  destruct (d =? int64_min); [reflexivity|].
  apply opp_has_sign, of_uint63_nonneg.
Qed.

(** Seconds of a tick count that is not positive are not positive. *)
Lemma seconds_nonpos d :
  d <= 0 -> (to_double d * pow_10_m9 <=? 0)%float = true.
Proof.
  intros H. destruct (Z.eq_dec d 0) as [->|Hn]; [reflexivity|].
  apply leb_zero_of_sign.
  eapply mul_has_sign; [apply to_double_negative; lia|].
  exact pow_10_m9_finite.
Qed.

End Compare.

(** ** X1: when an event is due *)

Section Due.
Context {U : Type}.
Implicit Types (w : World U) (e : TimedEvent) (o : Object U).


End Due.


(** ** X2: a wait that is never over *)

Section NeverDue.
Context {U : Type}.
Implicit Types (w : World U) (e : TimedEvent) (o : Object U).

Lemma never_due_handle o w :
  never_reached (Prim2SF (waitTime (base_of o))) = true ->
  virtual_handle (o, w) =
  Returns false (o, if handled (base_of o) then w else advance w).
Proof.
  intros Hn.
  assert (H : TimedEvent.handle (base_of o, w) =
              Returns false
                (base_of o, if handled (base_of o) then w else advance w)).
  { rewrite handle_eq. destruct (handled (base_of o)); [reflexivity|].
    unfold TimedEvent.lateness_at. now rewrite sub_never_reached. }
  rewrite (virtual_handle_eq _ _ _ _ _ H), set_base_same.
  now destruct (job_of o).
Qed.

(** X2. An event whose wait-duration is [+infinity] or not a number is
    never due, whatever the clock reads: every run of calls on it returns,
    each [handle()], [isDue()] and [shouldHandle()] in it returns false,
    the [TimedEvent] fields stay as they are and no job is invoked. *)
Theorem never_due_without_finite_wait (cs : list (Call U)) : forall o w,
  never_reached (Prim2SF (waitTime (base_of o))) = true ->
  exists vs o' w',
    run cs (o, w) = Returns vs (o', w') /\
    base_of o' = base_of o /\
    jobs_of (log w') = jobs_of (log w) /\
    (forall i c,
       nth_error cs i = Some c ->
       c = call_handle \/ c = call_isDue \/ c = call_shouldHandle ->
       nth_error vs i = Some (VBool false)).
Proof.
  induction cs as [|c cs IH]; intros o w Hn.
  - exists [], o, w. repeat split. intros [|i] c H; discriminate.
  - assert (Hc : exists v o1 w1,
               call c (o, w) = Returns v (o1, w1) /\
               base_of o1 = base_of o /\
               jobs_of (log w1) = jobs_of (log w) /\
               (c = call_handle \/ c = call_isDue \/ c = call_shouldHandle ->
                v = VBool false)).
    { destruct (call_eq_dec_handle c) as [->|Hc].
      - exists (VBool false), o, (if handled (base_of o) then w else advance w).
        cbn [call]. unfold bind. rewrite (never_due_handle o w Hn).
        repeat split. destruct (handled (base_of o)); [reflexivity|].
        apply jobs_of_advance.
      - destruct (call_other_returns c o w Hc)
          as (v & o1 & w1 & Hcall & Hb & _ & Hj & _).
        exists v, o1, w1. repeat split; auto.
        intros [->|[->| ->]]; [congruence| |];
          cbn [call] in Hcall; unfold timed_member, bind, on_base in Hcall.
        + rewrite isDue_eq in Hcall. unfold TimedEvent.lateness_at in Hcall.
          rewrite sub_never_reached in Hcall by exact Hn. now inversion Hcall.
        + rewrite shouldHandle_eq in Hcall.
          unfold TimedEvent.lateness_at in Hcall.
          rewrite sub_never_reached in Hcall by exact Hn.
          destruct (handled (base_of o)); now inversion Hcall. }
    destruct Hc as (v & o1 & w1 & Hcall & Hb1 & Hj1 & Hv).
    destruct (IH o1 w1) as (vs & o' & w' & Hrun & Hb & Hj & Hf);
      [now rewrite Hb1|].
    exists (v :: vs), o', w'. cbn [run]. unfold bind at 1. rewrite Hcall.
    unfold bind. rewrite Hrun. repeat split; try congruence.
    intros [|i] c0 H Hk; cbn in H |- *.
    + injection H as <-. now rewrite Hv.
    + now apply (Hf i c0).
Qed.

End NeverDue.

(** A recurring job event that waits for ever. *)
Lemma never_due_without_finite_wait_witness :
  never_reached
    (Prim2SF
       (waitTime
          (base_of
             (JobEventObj
                (mkJobEvent (mkTimedEvent (mkTimer 0 0) false true infinity)
                   (Some count_up)))))) = true /\
  exists vs o' w',
    run [call_handle; call_isDue; call_handle]
      (JobEventObj
         (mkJobEvent (mkTimedEvent (mkTimer 0 0) false true infinity)
            (Some count_up)), sample_world) = Returns vs (o', w') /\
    jobs_of (log w') = jobs_of (log sample_world).
Proof.
  split; [reflexivity|].
  destruct (never_due_without_finite_wait
              [call_handle; call_isDue; call_handle]
              (JobEventObj
                 (mkJobEvent (mkTimedEvent (mkTimer 0 0) false true infinity)
                    (Some count_up))) sample_world eq_refl)
    as (vs & o' & w' & Hrun & _ & Hj & _).
  exists vs, o', w'. split; [exact Hrun|exact Hj].
Defined.

(** ** X3: at the reading an event started at *)

Section AtStart.
Context {U : Type}.
Implicit Types (w : World U) (e : TimedEvent) (o : Object U).

Lemma lateness_at_start e :
  TimedEvent.lateness_at (startTime (timer e)) e = (0 - waitTime e)%float.
Proof.
  unfold TimedEvent.lateness_at, count, minus. now rewrite Z.sub_diag.
Qed.

Lemma positive_not_leb_zero (y : float) :
  (0 <? y)%float = true -> (y <=? 0)%float = false.
Proof.
  rewrite FloatAxioms.ltb_spec, FloatAxioms.leb_spec.
  change (Prim2SF 0) with (S754_zero false). unfold SFltb, SFleb.
  destruct (Prim2SF y) as [[|]|[|]| |[|] m e]; cbn; congruence.
Qed.

(** X3. When the clock still reads the time point an event started at,
    [isDue()] returns true exactly when [waitTime <= 0].  So an event with
    a positive wait-duration is not due at that reading, and next to a
    [handle()] that restarted a recurring event a [handle()] that reads
    the same time point returns false and only reads the clock. *)
Theorem due_at_start_reading e w :
  next_reading w = startTime (timer e) ->
  TimedEvent.isDue (e, w) =
    Returns (waitTime e <=? 0)%float (e, advance w) /\
  ((0 <? waitTime e)%float = true ->
   forall o, base_of o = e ->
     virtual_handle (o, w) =
     Returns false (o, if handled e then w else advance w)).
Proof.
  intros Hn.
  assert (Hd : (0 <=? TimedEvent.lateness_at (next_reading w) e)%float =
               (waitTime e <=? 0)%float)
    by (rewrite Hn, lateness_at_start; apply zero_sub_leb).
  split; [rewrite isDue_eq; now rewrite Hd|].
  intros Hpos o <-.
  assert (H : TimedEvent.handle (base_of o, w) =
              Returns false
                (base_of o, if handled (base_of o) then w else advance w)).
  { rewrite handle_eq, Hd, (positive_not_leb_zero _ Hpos).
    now destruct (handled (base_of o)). }
  rewrite (virtual_handle_eq _ _ _ _ _ H), set_base_same.
  now destruct (job_of o).
Qed.

End AtStart.

(** The recurring event on a clock that still reads the epoch. *)
Lemma due_at_start_reading_witness :
  next_reading (mkWorld (ticking 0 0) 0 0 []) =
    startTime (timer recurring_event) /\
  TimedEvent.isDue (recurring_event, mkWorld (ticking 0 0) 0 0 []) =
    Returns (waitTime recurring_event <=? 0)%float
      (recurring_event, advance (mkWorld (ticking 0 0) 0 0 [])).
Proof.
  split; [reflexivity|].
  exact (proj1 (due_at_start_reading recurring_event
                  (mkWorld (ticking 0 0) 0 0 []) eq_refl)).
Defined.

(** ** X4: a stopwatch read without a fresh [stop()] *)

Section StaleStop.
Context {U : Type}.
Implicit Types (w : World U) (t : Timer).

(** X4. [start()] writes [startTime] only and [stop()] writes [endTime]
    only.  So on a monotonic clock (whose readings fit the representation)
    a stopwatch that was started and not stopped since (a fresh one, whose
    [endTime] is the epoch, or one stopped before its last [start()])
    gives a [getTimePassed()] that compares [<= 0]: the seconds from the
    last [start()] back to the stale [endTime], not the time since the
    start. *)
Theorem elapsed_without_fresh_stop t w' :
  monotonic (clock w') ->
  representable (clock w') ->
  0 <= endTime t <= next_reading w' ->
  exists t1,
    Timer.start (t, w') = Returns tt (t1, advance w') /\
    endTime t1 = endTime t /\
    startTime t1 = next_reading w' /\
    (forall w2 : World U,
       exists t2, Timer.stop (t1, w2) = Returns tt (t2, advance w2) /\
                  startTime t2 = startTime t1) /\
    (forall w'' : World U,
       Timer.getTimePassed (t1, w'') =
         Returns (to_double (endTime t - next_reading w') * pow_10_m9)%float
           (t1, w'') /\
       (to_double (endTime t - next_reading w') * pow_10_m9 <=? 0)%float
         = true).
Proof.
  intros Hm Hr Hend.
  exists (mkTimer (next_reading w') (endTime t)).
  split; [apply Timer_start_eq|]. cbn [startTime endTime].
  do 2 (split; [reflexivity|]). split.
  - intros w2. eexists. split; [apply Timer_stop_eq|reflexivity].
  - intros w''. rewrite Timer_getTimePassed_eq. unfold Timer.seconds_between.
    cbn [startTime endTime]. unfold count, minus.
    pose proof (Hr (reads w')) as Hb. unfold next_reading in *.
    rewrite wrap64_small
      by (unfold in_int64, int64_min, int64_max in *; lia).
    split; [reflexivity|]. apply seconds_nonpos. lia.
Qed.

End StaleStop.

(** A fresh stopwatch started at 0.6 s and never stopped. *)
Lemma elapsed_without_fresh_stop_witness :
  monotonic (clock sample_world) /\
  representable (clock sample_world) /\
  0 <= endTime Timer.new <= next_reading sample_world /\
  forall w'' : World Z,
    Timer.getTimePassed (mkTimer (next_reading sample_world) 0, w'') =
      Returns
        (to_double (endTime Timer.new - next_reading sample_world)
         * pow_10_m9)%float
        (mkTimer (next_reading sample_world) 0, w'') /\
    (to_double (endTime Timer.new - next_reading sample_world) * pow_10_m9
     <=? 0)%float = true.
Proof.
  assert (Hm : monotonic (clock sample_world))
    by (apply ticking_monotonic; lia).
  assert (Hr : representable (clock sample_world))
    by (apply ticking_representable; lia).
  assert (He : 0 <= endTime Timer.new <= next_reading sample_world)
    by (vm_compute; split; discriminate).
  split; [exact Hm|]. split; [exact Hr|]. split; [exact He|].
  destruct (elapsed_without_fresh_stop Timer.new sample_world Hm Hr He)
    as (t1 & Hstart & _ & _ & _ & Hget).
  rewrite Timer_start_eq in Hstart. inversion Hstart; subst t1.
  exact Hget.
Defined.

(** ** X5: what no call writes *)

Section Settings.
Context {U : Type}.
Implicit Types (w : World U) (e : TimedEvent) (o : Object U).

Lemma same_settings_refl e : same_settings e e.
Proof. now repeat split. Qed.

Lemma same_settings_trans e1 e2 e3 :
  same_settings e1 e2 -> same_settings e2 e3 -> same_settings e1 e3.
Proof. unfold same_settings. intuition congruence. Qed.

(** The inherited [handle()] keeps the settings, and [handled] once set. *)
Lemma handle_settings e w r e' w1 :
  TimedEvent.handle (e, w) = Returns r (e', w1) ->
  same_settings e e' /\ (handled e = true -> handled e' = true).
Proof.
  rewrite handle_eq. destruct (handled e) eqn:Hh.
  - intros H; inversion H; subst. split; [apply same_settings_refl|auto].
  - destruct (0 <=? _)%float; [destruct (repeated e) eqn:Hr|];
      intros H; inversion H; subst; (split; [|discriminate]);
      repeat split; cbn; congruence.
Qed.

Lemma call_settings (c : Call U) o w :
  same_settings (base_of o) (base_of (fst (final (call c (o, w))))) /\
  (handled (base_of o) = true ->
   handled (base_of (fst (final (call c (o, w))))) = true).
Proof.
  destruct (call_eq_dec_handle c) as [->|Hc].
  - cbn [call]. rewrite final_bind.
    destruct (handle_returns (base_of o) w) as (r & e' & w1 & H & _).
    pose proof (virtual_handle_final o w r e' w1 H) as Hf.
    pose proof (handle_settings _ _ _ _ _ H) as Hs.
    destruct (virtual_handle (o, w)) as [a s|x s|s]; unfold ret;
      cbn [final] in Hf |- *; rewrite Hf, base_of_set_base; exact Hs.
  - destruct (call_other_returns c o w Hc) as (v & o' & w' & -> & Hb & _).
    cbn [final fst]. rewrite Hb. split; [apply same_settings_refl|auto].
Qed.

(** X5. Whatever calls are made on an object of the hierarchy, and
    wherever the run stops, [waitTime], [repeated] and the [endTime] of the
    inherited stopwatch are what they were; and an event that was handled
    stays handled. *)
Theorem settings_never_change (cs : list (Call U)) : forall o w,
  same_settings (base_of o) (base_of (fst (final (run cs (o, w))))) /\
  (handled (base_of o) = true ->
   handled (base_of (fst (final (run cs (o, w))))) = true).
Proof.
  induction cs as [|c cs IH]; intros o w.
  - split; [apply same_settings_refl|auto].
  - cbn [run]. rewrite final_bind.
    destruct (call_settings c o w) as [Hs Hh].
    destruct (call c (o, w)) as [v [o1 w1]|x s|s]; cbn [final fst] in *; auto.
    rewrite final_bind. destruct (IH o1 w1) as [Hs2 Hh2].
    destruct (run cs (o1, w1)) as [vs s|x s|s]; unfold ret; cbn [final] in *;
      (split; [eapply same_settings_trans; eassumption|auto]).
Qed.

End Settings.

(** ** X6, X7: jobs and firings *)

Section Firings.
Context {U : Type}.
Implicit Types (w : World U) (e : TimedEvent) (o : Object U).


Lemma class_of_set_base o e : class_of (set_base o e) = class_of o.
Proof. now destruct o. Qed.

Lemma fired_other (c : Call U) cs v vs :
  c <> call_handle -> fired (c :: cs) (v :: vs) = fired cs vs.
Proof. intros H. destruct c; try congruence; reflexivity. Qed.

(** X6. On an object that carries a callback (a [JobEvent] or a
    [PriorityEvent]), in every run that returns, the number of jobs
    invoked is the number of [handle()] calls that returned true. *)
Theorem jobs_match_firings (cs : list (Call U)) : forall o w vs o' w',
  class_of o <> TimedEventClass ->
  run cs (o, w) = Returns vs (o', w') ->
  length (jobs_of (log w')) = (length (jobs_of (log w)) + fired cs vs)%nat.
Proof.
  induction cs as [|c cs IH]; intros o w vs o' w' Hcl Hrun.
  - inversion Hrun; subst. cbn. lia.
  - cbn [run] in Hrun. unfold bind at 1 in Hrun.
    destruct (call c (o, w)) as [v [o1 w1]|x s|s] eqn:Hcall; try discriminate.
    unfold bind in Hrun.
    destruct (run cs (o1, w1)) as [vs1 [o2 w2]|x s|s] eqn:Hrest;
      try discriminate.
    inversion Hrun; subst vs o' w'; clear Hrun.
    assert (Hstep : class_of o1 = class_of o /\
                    length (jobs_of (log w1)) =
                    (length (jobs_of (log w)) +
                     fired [c] [v])%nat).
    { destruct (call_eq_dec_handle c) as [->|Hc].
      - cbn [call] in Hcall. unfold bind in Hcall.
        destruct (handle_returns (base_of o) w)
          as (r & e' & w0 & H & Hj & _).
        rewrite (virtual_handle_eq _ _ _ _ _ H) in Hcall.
        destruct (job_of o) as [cb|] eqn:Hjob;
          [|destruct o; cbn in Hjob, Hcl; congruence].
        destruct r.
        + destruct cb as [f|]; [|discriminate]. cbn zeta in Hcall.
          destruct (fst (f e' (user w0))); [discriminate|].
          inversion Hcall; subst. rewrite class_of_set_base.
          split; [reflexivity|].
          cbn [log fired]. rewrite jobs_of_app, length_app, Hj. cbn. lia.
        + inversion Hcall; subst. rewrite class_of_set_base.
          split; [reflexivity|]. cbn [fired]. rewrite Hj. lia.
      - destruct (call_other_returns c o w Hc)
          as (v0 & o0 & w0 & Hc0 & _ & Hcl0 & Hj0 & _).
        rewrite Hc0 in Hcall. inversion Hcall; subst.
        split; [exact Hcl0|]. rewrite Hj0.
        rewrite (fired_other _ [] _ [] Hc). cbn. lia. }
    destruct Hstep as [Hcl1 Hlen].
    rewrite (IH o1 w1 vs1 o2 w2 ltac:(congruence) Hrest), Hlen.
    destruct (call_eq_dec_handle c) as [->|Hc].
    + destruct v as [| |[|]| | |]; cbn [fired]; lia.
    + rewrite !(fired_other _ _ _ _ Hc). cbn. lia.
Qed.

(** A handled event fires no more. *)
Lemma handled_fires_no_more (cs : list (Call U)) : forall o w,
  handled (base_of o) = true ->
  exists vs o' w',
    run cs (o, w) = Returns vs (o', w') /\
    jobs_of (log w') = jobs_of (log w) /\
    fired cs vs = 0%nat.
Proof.
  induction cs as [|c cs IH]; intros o w Hh.
  - exists [], o, w. now repeat split.
  - destruct (call_eq_dec_handle c) as [->|Hc].
    + destruct (IH o w Hh) as (vs & o' & w' & Hrun & Hj & Hf).
      exists (VBool false :: vs), o', w'.
      cbn [run call]. unfold bind at 1. unfold bind at 1.
      rewrite (handled_handle_noop o w Hh). unfold ret at 1.
      unfold bind. rewrite Hrun. now repeat split.
    + destruct (call_other_returns c o w Hc)
        as (v & o1 & w1 & Hcall & Hb1 & _ & Hj1 & _).
      destruct (IH o1 w1 ltac:(congruence))
        as (vs & o' & w' & Hrun & Hj & Hf).
      exists (v :: vs), o', w'. cbn [run]. unfold bind at 1. rewrite Hcall.
      unfold bind. rewrite Hrun. repeat split; [congruence|].
      now rewrite (fired_other _ _ _ _ Hc).
Qed.

Lemma run_cons (c : Call U) cs (s : Object U * World U) :
  run (c :: cs) s =
  match call c s with
  | Returns v s' =>
      match run cs s' with
      | Returns vs s'' => Returns (v :: vs) s''
      | Throws x s'' => Throws x s''
      | Terminates s'' => Terminates s''
      end
  | Throws x s' => Throws x s'
  | Terminates s' => Terminates s'
  end.
Proof.
  cbn [run]. unfold bind, ret. now destruct (call c s).
Qed.

Lemma call_handle_eq o w :
  call call_handle (o, w) =
  match virtual_handle (o, w) with
  | Returns b s => Returns (VBool b) s
  | Throws x s => Throws x s
  | Terminates s => Terminates s
  end.
Proof. cbn [call]. unfold bind, ret. now destruct (virtual_handle (o, w)). Qed.

(** One [handle()] on a one-shot event that is not handled yet. *)
Lemma one_shot_handle_step o w :
  repeated (base_of o) = false ->
  handled (base_of o) = false ->
  match virtual_handle (o, w) with
  | Returns b (o1, w1) =>
      repeated (base_of o1) = false /\
      handled (base_of o1) = b /\
      (length (jobs_of (log w1))
       <= length (jobs_of (log w)) + (if b then 1 else 0))%nat
  | Throws _ _ => False
  | Terminates (o1, w1) =>
      (length (jobs_of (log w1)) <= length (jobs_of (log w)) + 1)%nat
  end.
Proof.
  intros Hr Hh.
  destruct (handle_returns (base_of o) w) as (r & e' & w0 & H & Hj & _).
  rewrite (virtual_handle_eq _ _ _ _ _ H).
  assert (He : repeated e' = false /\ handled e' = r).
  { rewrite handle_eq, Hh, Hr in H.
    destruct (0 <=? _)%float; inversion H; subst; cbn; auto. }
  destruct He as [Hr' Hh'].
  destruct (job_of o) as [[f|]|]; destruct r; cbn zeta;
    try destruct (fst (f e' (user w0)));
    rewrite ?base_of_set_base; cbn [log];
    rewrite ?jobs_of_app, ?length_app, ?Hj; cbn [jobs_of length];
    repeat split; auto; lia.
Qed.

(** X7. A one-shot event fires at most once in its life: in any run of
    calls, wherever it stops, at most one job was invoked (none when the
    event was handled already), and if the run returns at most one
    [handle()] in it returned true. *)
Theorem one_shot_at_most_once (cs : list (Call U)) : forall o w,
  repeated (base_of o) = false ->
  (length (jobs_of (log (snd (final (run cs (o, w))))))
   <= length (jobs_of (log w)) + (if handled (base_of o) then 0 else 1))%nat /\
  (forall vs s, run cs (o, w) = Returns vs s ->
     (fired cs vs <= if handled (base_of o) then 0 else 1)%nat).
Proof.
  induction cs as [|c cs IH]; intros o w Hr.
  - split; [cbn; lia|]. intros vs s H; inversion H; cbn; lia.
  - destruct (handled (base_of o)) eqn:Hh.
    { destruct (handled_fires_no_more (c :: cs) o w Hh)
        as (vs & o' & w' & Hrun & Hj & Hf).
      rewrite Hrun. cbn [final snd]. rewrite Hj. split; [lia|].
      intros vs0 s H; inversion H; subst. lia. }
    rewrite run_cons.
    destruct (call_eq_dec_handle c) as [->|Hc].
    + rewrite call_handle_eq.
      pose proof (one_shot_handle_step o w Hr Hh) as Hstep.
      destruct (virtual_handle (o, w)) as [b [o1 w1]|x s|[o1 w1]];
        [|contradiction|cbn [final snd]; split; [lia|discriminate]].
      destruct Hstep as (Hr1 & Hh1 & Hlen).
      destruct (IH o1 w1 Hr1) as [IH1 IH2]. rewrite Hh1 in IH1, IH2.
      destruct (run cs (o1, w1)) as [vs s|x s|s]; cbn [final] in *.
      * split; [destruct b; lia|].
        intros vs0 s0 Hx. injection Hx as <- <-.
        specialize (IH2 vs s eq_refl). destruct b; cbn [fired]; lia.
      * split; [destruct b; lia|discriminate].
      * split; [destruct b; lia|discriminate].
    + destruct (call_other_returns c o w Hc)
        as (v & o1 & w1 & Hcall & Hb1 & _ & Hj1 & _).
      destruct (IH o1 w1 ltac:(congruence)) as [IH1 IH2].
      rewrite Hb1, Hh in IH1, IH2. rewrite Hcall.
      destruct (run cs (o1, w1)) as [vs s|x s|s]; cbn [final] in *;
        rewrite <- Hj1.
      * split; [exact IH1|]. intros vs0 s0 Hx. injection Hx as <- <-.
        rewrite (fired_other _ _ _ _ Hc). now apply (IH2 vs s).
      * split; [exact IH1|discriminate].
      * split; [exact IH1|discriminate].
Qed.

End Firings.

(** The recurring job event polled eight times from 0.3 s on: it fires
    twice and its job runs twice. *)
Lemma jobs_match_firings_witness :
  class_of (JobEventObj (mkJobEvent recurring_event (Some count_up)))
    <> TimedEventClass /\
  length
    (jobs_of
       (log (snd (final (run [call_handle; call_handle; call_handle;
                              call_handle; call_handle; call_handle;
                              call_handle; call_handle]
                           (JobEventObj
                              (mkJobEvent recurring_event (Some count_up)),
                            early_world)))))) = 2%nat.
Proof.
  split; [discriminate|].
  refine (jobs_match_firings
            [call_handle; call_handle; call_handle; call_handle;
             call_handle; call_handle; call_handle; call_handle]
            (JobEventObj (mkJobEvent recurring_event (Some count_up)))
            early_world _ _ _ _ eq_refl).
  discriminate.
Defined.

(** The one-shot job event polled four times. *)
Lemma one_shot_at_most_once_witness :
  repeated (base_of (JobEventObj counting_job_event)) = false /\
  (length
     (jobs_of
        (log (snd (final (run [call_handle; call_handle; call_handle;
                               call_handle]
                            (JobEventObj counting_job_event, early_world))))))
   <= length (jobs_of (log early_world)) + 1)%nat.
Proof.
  split; [reflexivity|].
  exact (proj1 (one_shot_at_most_once
                  [call_handle; call_handle; call_handle; call_handle]
                  (JobEventObj counting_job_event) early_world eq_refl)).
Defined.

(** ** X8, X9: the callback and the priority in place *)

Section Setters.
Context {U : Type}.
Implicit Types (w : World U) (e : TimedEvent) (o : Object U).








End Setters.



(** ** X10: the order of priorities is a strict weak order *)

Section WeakOrder.
Context {U : Type}.
Implicit Types (w : World U) (a b c : PriorityEvent U).

(** X10. Besides being a strict order, [>] is a strict weak order, as an
    ordered container needs: two events are unrelated both ways exactly
    when their priorities are equal, being unrelated is transitive, when
    [a > c] any third event [b] has [a > b] or [b > c], and of [a > b],
    [b > a] and equal priorities one always holds. *)
Theorem priority_strict_weak_order w a b c :
  (above w a b = false /\ above w b a = false <-> priority a = priority b) /\
  (above w a b = false -> above w b a = false ->
   above w b c = false -> above w c b = false ->
   above w a c = false /\ above w c a = false) /\
  (above w a c = true -> above w a b = true \/ above w b c = true) /\
  (above w a b = true \/ above w b a = true \/ priority a = priority b).
Proof.
  rewrite !above_eq, !Z.gtb_ltb.
  repeat split; rewrite ?Z.ltb_lt, ?Z.ltb_ge in *;
    try (intros; rewrite ?Z.ltb_lt, ?Z.ltb_ge in *; lia).
Qed.

End WeakOrder.

(** ** X11: an event without a callback *)

Section EmptyCallback.
Context {U : Type}.
Implicit Types (w : World U) (e : TimedEvent) (o : Object U).

(** X11. An event may be constructed with an empty [std::function], and
    one may be installed later.  With an empty callback [handle()] still
    returns false, as for any event, while the event is handled or not
    due; at the poll where the event fires, the call of the empty
    function throws inside the [noexcept] [handle()], so the call ends in
    [std::terminate]: nothing is thrown to the caller, no job runs, and
    the transition has been made. *)
Theorem empty_callback_ends_at_firing o w :
  job_of o = Some None ->
  (forall x s, virtual_handle (o, w) <> Throws x s) /\
  (forall e' w1,
     TimedEvent.handle (base_of o, w) = Returns false (e', w1) ->
     virtual_handle (o, w) = Returns false (set_base o e', w1)) /\
  (forall e' w1,
     TimedEvent.handle (base_of o, w) = Returns true (e', w1) ->
     virtual_handle (o, w) = Terminates (set_base o e', w1) /\
     jobs_of (log w1) = jobs_of (log w) /\
     (repeated (base_of o) = false -> handled e' = true)) /\
  (forall (rep : bool) (wt : float),
     exists j, JobEvent.new None rep wt (tt, w) = Returns j (tt, advance w) /\
               job j = None).
Proof.
  intros Hj.
  destruct (handle_returns (base_of o) w) as (r & e0 & w0 & H & Hjobs & _).
  pose proof (virtual_handle_eq _ _ _ _ _ H) as Hv. rewrite Hj in Hv.
  split; [intros x s; rewrite Hv; destruct r; discriminate|].
  split; [intros e' w1 H1; rewrite H1 in H; inversion H; subst; exact Hv|].
  split.
  - intros e' w1 H1. rewrite H1 in H. inversion H; subst r e0 w0.
    split; [exact Hv|]. split; [exact Hjobs|].
    intros Hr. rewrite handle_eq, Hr in H1.
    destruct (handled (base_of o)); [discriminate|].
    destruct (0 <=? _)%float; inversion H1. reflexivity.
  - intros rep wt. eexists. split; reflexivity.
Qed.

End EmptyCallback.

(** The one-shot event without a callback, polled when it is due. *)
Lemma empty_callback_ends_at_firing_witness :
  job_of (JobEventObj (mkJobEvent (U:=Z) one_shot_event None)) = Some None /\
  virtual_handle (JobEventObj (mkJobEvent one_shot_event None), sample_world) =
  Terminates
    (set_base (JobEventObj (mkJobEvent one_shot_event None)) fired_event,
     advance sample_world).
Proof.
  split; [reflexivity|].
  destruct (empty_callback_ends_at_firing
              (JobEventObj (mkJobEvent (U:=Z) one_shot_event None))
              sample_world eq_refl) as (_ & _ & Hfire & _).
  exact (proj1 (Hfire fired_event (advance sample_world) eq_refl)).
Defined.

(** ** X12: time only moves forward *)

Section Forward.
Context {U : Type}.
Implicit Types (w : World U) (e : TimedEvent) (o : Object U).

(** Every call keeps the clock and never takes a reading back. *)
Lemma call_clock (c : Call U) o w :
  clock (snd (final (call c (o, w)))) = clock w /\
  (reads w <= reads (snd (final (call c (o, w)))))%nat.
Proof.
  destruct (call_eq_dec_handle c) as [->|Hc].
  - rewrite call_handle_eq.
    destruct (handle_returns (base_of o) w) as (r & e' & w0 & H & _ & _ & Hck).
    assert (Hrd : (reads w <= reads w0)%nat).
    { rewrite handle_eq in H.
      destruct (handled (base_of o)); [inversion H; lia|].
      destruct (0 <=? _)%float; [destruct (repeated (base_of o))|];
        inversion H; cbn; lia. }
    rewrite (virtual_handle_eq _ _ _ _ _ H).
    destruct (job_of o) as [[f|]|]; destruct r; cbn zeta;
      try destruct (fst (f e' (user w0))); cbn; auto.
  - destruct c; try congruence; clear Hc;
      try (destruct o as [?|[? ?]|[[? ?] ?]]; cbn; split; auto; lia).
    cbn [call]. pose proof (shouldHandle_eq (base_of o) w) as H.
    destruct (handled (base_of o));
      rewrite (timed_member_const _ _ _ _ _ _ H); cbn; split; auto; lia.
Qed.

(** One call keeps [startTime] where it is or moves it to a reading taken
    during the call. *)
Lemma call_start (c : Call U) o w :
  startTime (timer (base_of (fst (final (call c (o, w)))))) =
    startTime (timer (base_of o)) \/
  exists k, (reads w <= k < reads (snd (final (call c (o, w)))))%nat /\
            startTime (timer (base_of (fst (final (call c (o, w)))))) =
            clock w k.
Proof.
  destruct (call_eq_dec_handle c) as [->|Hc].
  - rewrite call_handle_eq.
    destruct (handle_returns (base_of o) w) as (r & e' & w0 & H & _).
    pose proof (virtual_handle_final o w r e' w0 H) as Hf.
    assert (Hw : forall s, snd (final (virtual_handle (o, w))) = s ->
                 (reads w0 <= reads s)%nat).
    { rewrite (virtual_handle_eq _ _ _ _ _ H).
      destruct (job_of o) as [[f|]|]; destruct r; cbn zeta;
        try destruct (fst (f e' (user w0))); cbn; intros s <-; cbn; lia. }
    assert (He : startTime (timer e') = startTime (timer (base_of o)) \/
                 exists k, (reads w <= k < reads w0)%nat /\
                           startTime (timer e') = clock w k).
    { rewrite handle_eq in H.
      destruct (handled (base_of o)); [inversion H; now left|].
      destruct (0 <=? _)%float; [destruct (repeated (base_of o))|];
        inversion H; subst; cbn; auto.
      right. exists (S (reads w)). split; [lia|reflexivity]. }
    destruct (virtual_handle (o, w)) as [b s|x s|s]; cbn [final] in *;
      rewrite Hf, base_of_set_base;
      (destruct He as [He|(k & Hk & He)]; [now left|right]);
      exists k; (split; [specialize (Hw _ eq_refl); lia|exact He]).
  - destruct (call_other_returns c o w Hc) as (v & o' & w' & -> & Hb & _).
    cbn [final fst]. left. now rewrite Hb.
Qed.

(** X12. On a monotonic clock an event's [startTime] only moves forward
    and never passes the clock: if, before a run of calls, [startTime] is
    not after the reading the clock gives next, then wherever the run
    stops [startTime] is not before what it was and not after the
    reading the clock gives next there.  So the elapsed time in
    [getLateness()] is never taken backwards. *)
Theorem start_time_moves_forward (cs : list (Call U)) : forall o w,
  monotonic (clock w) ->
  startTime (timer (base_of o)) <= next_reading w ->
  clock (snd (final (run cs (o, w)))) = clock w /\
  (reads w <= reads (snd (final (run cs (o, w)))))%nat /\
  startTime (timer (base_of o)) <=
    startTime (timer (base_of (fst (final (run cs (o, w)))))) /\
  startTime (timer (base_of (fst (final (run cs (o, w)))))) <=
    next_reading (snd (final (run cs (o, w)))).
Proof.
  induction cs as [|c cs IH]; intros o w Hm Hs.
  - cbn. repeat split; auto; lia.
  - rewrite run_cons.
    destruct (call_clock c o w) as [Hck Hrd].
    pose proof (call_start c o w) as Hst.
    assert (Hstep :
      startTime (timer (base_of o)) <=
        startTime (timer (base_of (fst (final (call c (o, w)))))) /\
      startTime (timer (base_of (fst (final (call c (o, w)))))) <=
        next_reading (snd (final (call c (o, w))))).
    { unfold next_reading in *. rewrite Hck.
      pose proof (Hm (reads w) (reads (snd (final (call c (o, w))))) Hrd).
      destruct Hst as [->|(k & Hk & ->)]; [lia|].
      pose proof (Hm (reads w) k ltac:(lia)).
      pose proof (Hm k (reads (snd (final (call c (o, w))))) ltac:(lia)).
      lia. }
    destruct (call c (o, w)) as [v [o1 w1]|x [o1 w1]|[o1 w1]];
      cbn [final fst snd] in *; auto.
    destruct (IH o1 w1 ltac:(now rewrite Hck) (proj2 Hstep))
      as (Hck2 & Hrd2 & Hs2 & Hn2).
    destruct (run cs (o1, w1)) as [vs s|x s|s]; cbn [final] in *;
      (split; [congruence|]); (split; [lia|]); (split; [lia|exact Hn2]).
Qed.

End Forward.

(** The recurring job event polled three times from 0.3 s on. *)
Lemma start_time_moves_forward_witness :
  monotonic (clock early_world) /\
  startTime (timer (base_of (JobEventObj
                               (mkJobEvent recurring_event (Some count_up)))))
    <= next_reading early_world /\
  startTime (timer (base_of (JobEventObj
                               (mkJobEvent recurring_event (Some count_up)))))
  <= startTime
       (timer
          (base_of
             (fst (final (run [call_handle; call_handle; call_handle]
                            (JobEventObj
                               (mkJobEvent recurring_event (Some count_up)),
                             early_world)))))).
Proof.
  assert (Hm : monotonic (clock early_world))
    by (apply ticking_monotonic; lia).
  assert (Hs : startTime (timer (base_of (JobEventObj
                 (mkJobEvent (U:=Z) recurring_event (Some count_up)))))
               <= next_reading early_world) by (vm_compute; discriminate).
  split; [exact Hm|]. split; [exact Hs|].
  destruct (start_time_moves_forward
              [call_handle; call_handle; call_handle]
              (JobEventObj (mkJobEvent recurring_event (Some count_up)))
              early_world Hm Hs) as (_ & _ & H & _).
  exact H.
Defined.
